(** * ChordKey.KeyCommon: label resolution, key geometry and colour cache

    A shallow embedding of [src/ChordKey/KeyCommon.py].

    Conventions of the embedding:
    - a Python [int] is a [Z], [&] is [Z.land], and an [int] used as a
      condition is true when it is not zero;
    - a Python number that the code divides, scales or compares (rectangle
      coordinates, [key_size], colour components) is an exact rational [Q];
      rounding is not modelled, and what is stated of such numbers is an
      order or an equality that the rounded values keep;
    - a Python [str] is the [string] of its UTF-8 encoding: a code point
      below 128 is one character of the [string], any other code point is
      two to four of them;
    - a [dict] is a [gmap];
    - a variable that may hold [None] is an [option];
    - an operation that may raise returns a [pyres], the exception being
      named as Python names it. *)

From Stdlib Require Import ZArith QArith Lia Lqa Ascii String.
From Stdlib Require Import DecimalString DecimalNat.
From stdpp Require Import gmap strings list.

Local Open Scope Z_scope.
Local Open Scope string_scope.

(** ** Exceptions *)

Inductive exn : Type :=
| KeyError
| ValueError
| AssertionError
| IndexError.

Inductive pyres (A : Type) : Type :=
| Ok (a : A)
| Raise (e : exn).

Arguments Ok {A} a.
Arguments Raise {A} e.

(** Sequencing: an exception ends the computation. With these instances
    [x ← c; k] runs [c], binds its value to [x] and goes on with [k]. *)
#[global] Instance pyres_ret : MRet pyres := fun A a => Ok a.

#[global] Instance pyres_bind : MBind pyres := fun A B k c =>
  match c with
  | Ok a => k a
  | Raise e => Raise e
  end.

(** [d[k]] on a dict: raises [KeyError] when [k] is not a key. *)
Definition dict_item {K V} `{Countable K} (d : gmap K V) (k : K) : pyres V :=
  match d !! k with
  | Some v => Ok v
  | None => Raise KeyError
  end.

(** [k in d]. *)
Definition dict_in {K V} `{Countable K} (k : K) (d : gmap K V) : bool :=
  match d !! k with
  | Some _ => true
  | None => false
  end.

(** [x is None]. *)
Definition is_None {A} (x : option A) : bool :=
  match x with
  | Some _ => false
  | None => true
  end.

(** Truth value of an [int]. *)
Definition truthy (n : Z) : bool := negb (n =? 0)%Z.

(** ** KeyCommon.configure_label *)

(** The modifier bits come from [ChordKey.utils], which is not among the
    sources: [Modifiers.SHIFT], [Modifiers.CAPS], [Modifiers.ALTGR] and
    [LABEL_MODIFIERS] are parameters of the embedding. *)
Record ModifierDefs : Type := {
  SHIFT : Z;
  CAPS : Z;
  ALTGR : Z;
  LABEL_MODIFIERS : Z
}.

Section LabelResolver.

Variable M : ModifierDefs.

(** The body of [configure_label]; the result is the value assigned to
    [self.label]. The local [label] holds [None] or a string. *)
Definition configure_label (labels : gmap Z string) (mod_mask : Z)
  : pyres (option string) :=
  let label := labels !! mod_mask in
  let label :=
    if is_None label
    then labels !! (Z.land mod_mask (LABEL_MODIFIERS M))
    else label in
  label ←
    (if is_None label then
       if truthy (Z.land mod_mask (SHIFT M)) then
         if truthy (Z.land mod_mask (ALTGR M)) && dict_in 129 labels then
           l ← dict_item labels 129; Ok (Some l)
         else if dict_in 1 labels then
           l ← dict_item labels 1; Ok (Some l)
         else if dict_in 2 labels then
           l ← dict_item labels 2; Ok (Some l)
         else Ok label
       else if truthy (Z.land mod_mask (ALTGR M)) && dict_in 128 labels then
         l ← dict_item labels 128; Ok (Some l)
       else if truthy (Z.land mod_mask (CAPS M)) then
         if dict_in 2 labels then
           l ← dict_item labels 2; Ok (Some l)
         else if dict_in 1 labels then
           l ← dict_item labels 1; Ok (Some l)
         else Ok label
       else Ok label
     else Ok label);
  let label := if is_None label then labels !! 0 else label in
  let label := if is_None label then Some "" else label in
  Ok label.

(** *** The priority chain as the specification words it *)

(** A modifier bit is set in a mask. *)
Definition bit_set (mask bit : Z) : bool := negb (Z.land mask bit =? 0)%Z.

(** First candidate that is present, in the order given. *)
Fixpoint first_present (cands : list (option string)) : option string :=
  match cands with
  | [] => None
  | Some s :: _ => Some s
  | None :: rest => first_present rest
  end.

(** Step 3: the legacy slots 129, 1, 2 and 128. *)
Definition legacy_slot (labels : gmap Z string) (mask : Z) : option string :=
  if bit_set mask (SHIFT M) then
    first_present
      [ if bit_set mask (ALTGR M) then labels !! 129 else None;
        labels !! 1;
        labels !! 2 ]
  else if bit_set mask (ALTGR M) && dict_in 128 labels then
    labels !! 128
  else if bit_set mask (CAPS M) then
    first_present [ labels !! 2; labels !! 1 ]
  else None.

(** Steps 1 to 5, first match wins. *)
Definition resolve_label (labels : gmap Z string) (mask : Z) : string :=
  default ""
    (first_present
       [ labels !! mask;
         labels !! (Z.land mask (LABEL_MODIFIERS M));
         legacy_slot labels mask;
         labels !! 0 ]).

End LabelResolver.

(** Modelled from the spec: the values of [Modifiers.SHIFT], [Modifiers.CAPS]
    and [Modifiers.ALTGR] are set in [ChordKey.utils], which is not among
    the sources. The examples of the specification are read with the legacy
    slots 1, 2, 128 and 129 being the masks of Shift, of CapsLock, of AltGr
    and of Shift with AltGr; [LABEL_MODIFIERS] stays a parameter. *)
Definition legacy_bits (label_modifiers : Z) : ModifierDefs :=
  {| SHIFT := 1; CAPS := 2; ALTGR := 128; LABEL_MODIFIERS := label_modifiers |}.

(** The label maps of the examples. *)
Definition labels_abcde : gmap Z string :=
  <[0 := "a"]> (<[1 := "b"]> (<[2 := "c"]> (<[128 := "d"]> (<[129 := "e"]> ∅)))).

Definition labels_ac : gmap Z string :=
  <[0 := "a"]> (<[2 := "c"]> ∅).

(** ** StickyBehavior *)

Module StickyBehavior.

(** The enum members are the integers of [tuple(range(4))]. *)
Definition CYCLE : Z := 0.
Definition DOUBLE_CLICK : Z := 1.
Definition LATCH_ONLY : Z := 2.
Definition LOCK_ONLY : Z := 3.

Definition values : gmap string Z :=
  <["cycle" := CYCLE]>
    (<["dblclick" := DOUBLE_CLICK]>
       (<["latch" := LATCH_ONLY]>
          (<["lock" := LOCK_ONLY]> ∅))).

(** [StickyBehavior.values[str_value]]; the docstring: "Raises KeyError". *)
Definition from_string (str_value : string) : pyres Z :=
  dict_item values str_value.

(** [value in StickyBehavior.values.values()]. *)
Definition is_valid (value : Z) : bool :=
  bool_decide (value ∈ (map_to_list values).*2).

End StickyBehavior.

(** ** Strings: [split], slices, [startswith] *)

(** [s.split(sep)] for a separator of one character: the pieces between the
    occurrences of [sep], of which there is always at least one. *)
Fixpoint str_split (sep : ascii) (s : string) : list string :=
  match s with
  | EmptyString => [EmptyString]
  | String c s' =>
      if Ascii.eqb c sep then EmptyString :: str_split sep s'
      else match str_split sep s' with
           | [] => [String c EmptyString]
           | piece :: pieces => String c piece :: pieces
           end
  end.

(** [l[i]] on a list, for [i >= 0]: raises [IndexError] out of range. *)
Definition list_item {A} (l : list A) (i : nat) : pyres A :=
  match l !! i with
  | Some a => Ok a
  | None => Raise IndexError
  end.

(** [s[n:]] for a string whose first [n] code points are below 128, one
    character each: a slice never raises. *)
Fixpoint str_drop (n : nat) (s : string) : string :=
  match n, s with
  | O, _ => s
  | S n', String _ s' => str_drop n' s'
  | S _, EmptyString => EmptyString
  end.

(** [s.startswith(prefix)]. *)
Fixpoint startswith (s prefix : string) {struct prefix} : bool :=
  match prefix, s with
  | EmptyString, _ => true
  | String _ _, EmptyString => false
  | String a prefix', String b s' => Ascii.eqb a b && startswith s' prefix'
  end.

(** [c in s] for a character [c]. *)
Fixpoint str_contains (c : ascii) (s : string) : bool :=
  match s with
  | EmptyString => false
  | String c' s' => Ascii.eqb c' c || str_contains c s'
  end.

(** ** The builtin [int] on a string *)

(** The number of a character, and the character of a number. *)
Definition ord (c : ascii) : Z := Z.of_nat (nat_of_ascii c).

Definition chr (n : Z) : ascii := ascii_of_nat (Z.to_nat n).

Definition is_continuation (c : ascii) : bool :=
  (128 <=? ord c)%Z && (ord c <? 192)%Z.

(** The code points of a [str], read off its UTF-8 encoding; [None] for a
    [string] that is the encoding of no [str]. *)
Fixpoint code_points (s : string) : option (list Z) :=
  match s with
  | EmptyString => Some []
  | String c0 s0 =>
      let b0 := ord c0 in
      if (b0 <? 128)%Z then cons b0 <$> code_points s0
      else
        match s0 with
        | EmptyString => None
        | String c1 s1 =>
            let b1 := ord c1 in
            if (194 <=? b0)%Z && (b0 <? 224)%Z then
              if is_continuation c1
              then cons ((b0 - 192) * 64 + (b1 - 128)) <$> code_points s1
              else None
            else
              match s1 with
              | EmptyString => None
              | String c2 s2 =>
                  let b2 := ord c2 in
                  if (224 <=? b0)%Z && (b0 <? 240)%Z then
                    let p := (b0 - 224) * 4096 + (b1 - 128) * 64 + (b2 - 128) in
                    if is_continuation c1 && is_continuation c2 && (2048 <=? p)%Z
                    then cons p <$> code_points s2
                    else None
                  else
                    match s2 with
                    | EmptyString => None
                    | String c3 s3 =>
                        let b3 := ord c3 in
                        let p := (b0 - 240) * 262144 + (b1 - 128) * 4096
                                 + (b2 - 128) * 64 + (b3 - 128) in
                        if (240 <=? b0)%Z && (b0 <? 245)%Z
                           && is_continuation c1 && is_continuation c2
                           && is_continuation c3
                           && (65536 <=? p)%Z && (p <=? 1114111)%Z
                        then cons p <$> code_points s3
                        else None
                    end
              end
        end
  end.

(** What of the interpreter [int] depends on: the limit on the digits of a
    string converted to an integer, [sys.get_int_max_str_digits()], which is
    0 for no limit and for interpreters that have none; and the decimal
    digits of its Unicode database from code point 128 on, which come in
    runs of ten, zero to nine, given here by the code points of the zeros. *)
Record Interpreter : Type := {
  int_max_str_digits : nat;
  decimal_zeros : list Z
}.

(** CPython 3.11 as it starts: a limit of 4300 digits, Unicode 14.0. *)
Definition cpython_3_11 : Interpreter :=
  {| int_max_str_digits := 4300;
     decimal_zeros :=
       [1632; 1776; 1984; 2406; 2534; 2662; 2790; 2918; 3046; 3174; 3302;
        3430; 3558; 3664; 3792; 3872; 4160; 4240; 6112; 6160; 6470; 6608;
        6784; 6800; 6992; 7088; 7232; 7248; 42528; 43216; 43264; 43472;
        43504; 43600; 44016; 65296; 66720; 68912; 69734; 69872; 69942;
        70096; 70384; 70736; 70864; 71248; 71360; 71472; 71904; 72016;
        72784; 73040; 73120; 92768; 92864; 93008; 120782; 120792; 120802;
        120812; 120822; 123200; 123632; 125264; 130032] |}.

(** The value of a decimal digit from code point 128 on. *)
Fixpoint unicode_decimal (zeros : list Z) (p : Z) : option Z :=
  match zeros with
  | [] => None
  | z :: zeros' =>
      if (z <=? p)%Z && (p <? z + 10)%Z then Some (p - z)
      else unicode_decimal zeros' p
  end.

(** White space from code point 128 on, as [str.isspace] has it: next line
    (133), the no-break space (160), the Ogham space mark (5760), the
    spaces 8192 to 8202, the line and the paragraph separator (8232, 8233),
    the narrow no-break space (8239), the medium mathematical space (8287)
    and the ideographic space (12288). *)
Definition unicode_space (p : Z) : bool :=
  (p =? 133)%Z || (p =? 160)%Z || (p =? 5760)%Z
  || ((8192 <=? p)%Z && (p <=? 8202)%Z)
  || (p =? 8232)%Z || (p =? 8233)%Z || (p =? 8239)%Z || (p =? 8287)%Z
  || (p =? 12288)%Z.

(** [int] first brings its argument to ASCII: a code point below 128 stays,
    white space from 128 on becomes a space, a decimal digit from 128 on
    the ASCII digit of its value; any other code point makes the argument
    invalid, and [int] raises [ValueError]. *)
Definition ascii_of_point (py : Interpreter) (p : Z) : option ascii :=
  if (p <? 128)%Z then Some (chr p)
  else if unicode_space p then Some " "%char
  else (fun d : Z => chr (48 + d)) <$> unicode_decimal (decimal_zeros py) p.

Fixpoint ascii_text (py : Interpreter) (points : list Z) : option string :=
  match points with
  | [] => Some EmptyString
  | p :: points' =>
      c ← ascii_of_point py p;
      text ← ascii_text py points';
      Some (String c text)
  end.

Definition is_digit (c : ascii) : bool :=
  (48 <=? Z.of_nat (nat_of_ascii c))%Z && (Z.of_nat (nat_of_ascii c) <=? 57)%Z.

Definition digit_value (c : ascii) : Z := Z.of_nat (nat_of_ascii c) - 48.

(** White space that is stripped from the ASCII text: tab, line feed,
    vertical tab, form feed, carriage return and the space. The separators
    28 to 31 are not stripped. *)
Definition is_space (c : ascii) : bool :=
  let n := Z.of_nat (nat_of_ascii c) in
  ((9 <=? n)%Z && (n <=? 13)%Z) || (n =? 32)%Z.

Fixpoint lstrip (s : string) : string :=
  match s with
  | EmptyString => EmptyString
  | String c s' => if is_space c then lstrip s' else s
  end.

Fixpoint rstrip (s : string) : string :=
  match s with
  | EmptyString => EmptyString
  | String c s' =>
      match rstrip s' with
      | EmptyString => if is_space c then EmptyString else String c EmptyString
      | r => String c r
      end
  end.

(** The digits of an [int] argument, most significant first: digits, with
    single underscores allowed between two digits; [after_digit] tells
    whether the previous character was a digit. *)
Fixpoint int_digits (s : string) (acc : Z) (after_digit : bool) : option Z :=
  match s with
  | EmptyString => if after_digit then Some acc else None
  | String c s' =>
      if is_digit c then int_digits s' (10 * acc + digit_value c) true
      else if Ascii.eqb c "_" && after_digit then int_digits s' acc false
      else None
  end.

(** Number of decimal digits in a string. *)
Fixpoint count_digits (s : string) : nat :=
  match s with
  | EmptyString => O
  | String c s' => ((if is_digit c then 1 else 0) + count_digits s')%nat
  end.

(** The limit on the digits: a string of at most 640 digits is never
    refused, and a limit of 0 refuses none. *)
Definition exceeds_max_str_digits (max_str_digits digits : nat) : bool :=
  (640 <? digits)%nat && (0 <? max_str_digits)%nat && (max_str_digits <? digits)%nat.

(** The integer written by an ASCII text, base ten: surrounding white
    space, an optional sign, digits, no more of them than the limit allows.
    Anything else raises [ValueError]. *)
Definition long_from_string (max_str_digits : nat) (text : string) : pyres Z :=
  let body := rstrip (lstrip text) in
  let parsed :=
    match body with
    | String c ds =>
        if Ascii.eqb c "-" then Z.opp <$> int_digits ds 0 false
        else if Ascii.eqb c "+" then int_digits ds 0 false
        else int_digits body 0 false
    | EmptyString => None
    end in
  match parsed with
  | Some n =>
      if exceeds_max_str_digits max_str_digits (count_digits body)
      then Raise ValueError
      else Ok n
  | None => Raise ValueError
  end.

(** [int(s)] for a string [s]: the ASCII text of its code points, parsed.
    A [string] that encodes no [str] is given [ValueError]. *)
Definition py_int (py : Interpreter) (s : string) : pyres Z :=
  match code_points s ≫= ascii_text py with
  | Some text => long_from_string (int_max_str_digits py) text
  | None => Raise ValueError
  end.

(** A string of the digits 0 to 9 only, and its value read left to right. *)
Fixpoint all_digits (s : string) : bool :=
  match s with
  | EmptyString => true
  | String c s' => is_digit c && all_digits s'
  end.

Fixpoint digits_value (s : string) (acc : Z) : Z :=
  match s with
  | EmptyString => acc
  | String c s' => digits_value s' (10 * acc + digit_value c)
  end.

(** Every character, some character of a string passes a test. *)
Fixpoint str_forall (p : ascii -> bool) (s : string) : bool :=
  match s with
  | EmptyString => true
  | String c s' => p c && str_forall p s'
  end.

Fixpoint str_exists (p : ascii -> bool) (s : string) : bool :=
  match s with
  | EmptyString => false
  | String c s' => p c || str_exists p s'
  end.

(** The characters an integer numeral is written with in ASCII, and the
    code points it is written with: also the white space and the decimal
    digits from code point 128 on. *)
Definition numeral_char (c : ascii) : bool :=
  is_digit c || is_space c || Ascii.eqb c "-" || Ascii.eqb c "+" || Ascii.eqb c "_".

Definition numeral_point (py : Interpreter) (p : Z) : bool :=
  if (p <? 128)%Z then numeral_char (chr p)
  else unicode_space p
       || negb (is_None (unicode_decimal (decimal_zeros py) p)).

Definition digit_point (py : Interpreter) (p : Z) : bool :=
  if (p <? 128)%Z then is_digit (chr p)
  else negb (is_None (unicode_decimal (decimal_zeros py) p)).

Definition is_ascii (c : ascii) : bool := (ord c <? 128)%Z.

(** ** Rectangles *)

Module Rect.

(** [ChordKey.utils.Rect]: origin, width and height. *)
Record t : Type := mk { x : Q; y : Q; w : Q; h : Q }.

Local Open Scope Q_scope.

(** Modelled from the spec: [Rect.deflate] belongs to [ChordKey.utils],
    which is not among the sources. The rectangle shrinks toward its
    centre by [dx] on the left and on the right and by [dy] above and
    below; an amount of at least half the dimension gives the dimension
    zero, never a negative one. *)
Definition deflate (r : t) (dx dy : Q) : t :=
  {| x := x r + dx;
     y := y r + dy;
     w := if Qle_bool (w r / 2) dx then 0 else w r - 2 * dx;
     h := if Qle_bool (h r / 2) dy then 0 else h r - 2 * dy |}.

(** Equality of rectangles as numbers compare ([==] on each field). *)
Definition equiv (r1 r2 : t) : Prop :=
  x r1 == x r2 /\ y r1 == y r2 /\ w r1 == w r2 /\ h r1 == h r2.

End Rect.

(** [a < b] and [a > b] on numbers. *)
Definition Qlt_bool (a b : Q) : bool := negb (Qle_bool b a).
Definition Qgt_bool (a b : Q) : bool := Qlt_bool b a.

(** ** Keys *)

(** The attributes of a key that the functions below read or assign. *)
Record KeyCommon : Type := {
  theme_id : option string;
  id : string;
  prelight : bool;
  pressed : bool;
  active : bool;
  locked : bool;
  sensitive : bool;
  scanned : bool
}.

(** A key as the class attributes leave it ([sensitive] is a default of
    [LayoutItem]), with the id that [RectKeyCommon.__init__] assigns. *)
Definition plain_key (id : string) : KeyCommon :=
  {| theme_id := None;
     id := id;
     prelight := false;
     pressed := false;
     active := false;
     locked := false;
     sensitive := true;
     scanned := false |}.

(** ** KeyCommon.split_id, set_id, is_layer_button, get_layer_index *)

Definition split_id (value : string) : pyres (string * string) :=
  let theme_id := value in
  id ← list_item (str_split "." value) 0;
  Ok (theme_id, id).

(** [self.theme_id, self.id = self.split_id(value)]. *)
Definition set_id (self : KeyCommon) (value : string) : pyres KeyCommon :=
  ids ← split_id value;
  Ok {| theme_id := Some (fst ids);
        id := snd ids;
        prelight := prelight self;
        pressed := pressed self;
        active := active self;
        locked := locked self;
        sensitive := sensitive self;
        scanned := scanned self |}.

Definition is_layer_button (self : KeyCommon) : bool :=
  startswith (id self) "layer".

(** [assert cond]. *)
Definition py_assert (cond : bool) : pyres unit :=
  if cond then Ok tt else Raise AssertionError.

(** [py] is the interpreter whose [int] is called. *)
Definition get_layer_index (py : Interpreter) (self : KeyCommon) : pyres Z :=
  _ ← py_assert (is_layer_button self);
  py_int py (str_drop 5 (id self)).

(** ** RectKeyCommon: geometry *)

(** [config.theme_settings]: the style constants read below. *)
Record ThemeSettings : Type := {
  key_style : string;
  key_size : Q
}.

Record Config : Type := {
  theme_settings : ThemeSettings
}.

Section Geometry.

Local Open Scope Q_scope.

(** The configuration singleton. *)
Variable config : Config.

(** [LayoutItem.get_rect]: the key's bounding box at full size, from a
    class that is not among the sources. *)
Variable LayoutItem_get_rect : KeyCommon -> Rect.t.

Definition get_fullsize_rect (self : KeyCommon) : Rect.t :=
  let rect := LayoutItem_get_rect self in
  rect.

(** The amounts [(bx, by)] that [_apply_key_size] hands to [deflate]. *)
Definition key_size_borders (rect : Rect.t) : Q * Q :=
  let size := key_size (theme_settings config) / 100.0 in
  let bx := Rect.w rect * (1.0 - size) / 2.0 in
  let by_ := Rect.h rect * (1.0 - size) / 2.0 in
  let by_ := if Qgt_bool (Rect.h rect) (Rect.w rect) then bx else by_ in
  let bx := if Qlt_bool (Rect.h rect) (Rect.w rect) then by_ else bx in
  (bx, by_).

Definition _apply_key_size (rect : Rect.t) : Rect.t :=
  Rect.deflate rect (fst (key_size_borders rect)) (snd (key_size_borders rect)).

Definition get_unpressed_rect (self : KeyCommon) : Rect.t :=
  let rect := get_fullsize_rect self in
  _apply_key_size rect.

(** [rect.x += k] and [rect.y += k]. *)
Definition add_x (rect : Rect.t) (k : Q) : Rect.t :=
  {| Rect.x := Rect.x rect + k; Rect.y := Rect.y rect;
     Rect.w := Rect.w rect; Rect.h := Rect.h rect |}.

Definition add_y (rect : Rect.t) (k : Q) : Rect.t :=
  {| Rect.x := Rect.x rect; Rect.y := Rect.y rect + k;
     Rect.w := Rect.w rect; Rect.h := Rect.h rect |}.

(** In both pressed branches [rect.w - 2 * k] and [rect.h - k] are
    expressions whose value is dropped. *)
Definition get_rect (self : KeyCommon) : Rect.t :=
  let rect := get_fullsize_rect self in
  let rect :=
    if pressed self then
      let key_style := key_style (theme_settings config) in
      if String.eqb key_style "gradient" then
        let k := 0.2 in
        let rect := add_x rect k in
        let rect := add_y rect (2 * k) in
        let _ := Rect.w rect - 2 * k in
        let _ := Rect.h rect - k in
        rect
      else if String.eqb key_style "dish" then
        let k := 0.45 in
        let rect := add_x rect k in
        let rect := add_y rect (2 * k) in
        let _ := Rect.w rect - 2 * k in
        let _ := Rect.h rect - k in
        rect
      else rect
    else rect in
  _apply_key_size rect.

End Geometry.

(** ** RectKeyCommon: colours *)

(** A colour as the code holds it: [None] or a list of numbers. *)
Definition rgba_value : Type := option (list Q).

(** Truth value of such a value: [None] and the empty list are false. *)
Definition rgba_truthy (v : rgba_value) : bool :=
  match v with
  | Some (_ :: _) => true
  | _ => false
  end.

(** The key of the cache: the element and six flags, in this order. *)
Definition color_key : Type := string * bool * bool * bool * bool * bool * bool.

(** [self.color_scheme] is an object of a class that is not among the
    sources; of it the code uses [get_key_rgba(key, element)], whose result
    it neither checks nor converts. *)
Record ColorScheme : Type := {
  get_key_rgba : KeyCommon -> string -> rgba_value
}.

Record RectKeyCommon : Type := {
  key : KeyCommon;
  color_scheme : option ColorScheme;
  colors : gmap color_key rgba_value
}.

(** [d.get(k)] on a dict whose values may be [None]: [None] when [k] is not
    a key. *)
Definition dict_get {K V} `{Countable K} (d : gmap K (option V)) (k : K)
  : option V :=
  match d !! k with
  | Some v => v
  | None => None
  end.

Definition make_color_key (self : KeyCommon) (element : string) : color_key :=
  (element, prelight self, pressed self, active self, locked self,
   sensitive self, scanned self).

(** [self.colors[color_key] = rgba]. *)
Definition store_color (self : RectKeyCommon) (k : color_key) (rgba : rgba_value)
  : RectKeyCommon :=
  {| key := key self;
     color_scheme := color_scheme self;
     colors := <[k := rgba]> (colors self) |}.

(** A call of the collaborator: the arguments of [get_key_rgba]. *)
Definition lookup_call : Type := KeyCommon * string.

(** [_get_color]: the value returned, the key with its cache afterwards, and
    the calls of [get_key_rgba] made on the way. *)
Definition _get_color (self : RectKeyCommon) (element : string)
  : rgba_value * RectKeyCommon * list lookup_call :=
  let color_key := make_color_key (key self) element in
  let rgba := dict_get (colors self) color_key in
  if negb (rgba_truthy rgba) then
    let '(rgba, calls) :=
      match color_scheme self with
      | Some scheme =>
          (get_key_rgba scheme (key self) element, [(key self, element)])
      | None =>
          if String.eqb element "label"
          then (Some [0.0; 0.0; 0.0; 1.0]%Q, [])
          else (Some [1.0; 1.0; 1.0; 1.0]%Q, [])
      end in
    (rgba, store_color self color_key rgba, calls)
  else (rgba, self, []).

(** *** A sequence of colour queries on one key

    Between two queries the collaborators may set the flags and replace the
    colour scheme; the cache is only written by [_get_color] and is never
    cleared. A query gives the key's attributes and colour scheme at the
    time of the call, and the element asked for. *)
Record query : Type := {
  q_key : KeyCommon;
  q_scheme : option ColorScheme;
  q_element : string
}.

Record answer : Type := {
  a_color_key : color_key;
  a_rgba : rgba_value;
  a_calls : list lookup_call
}.

Fixpoint run_queries (cache : gmap color_key rgba_value) (qs : list query)
  : list answer :=
  match qs with
  | [] => []
  | q :: qs' =>
      let self := {| key := q_key q; color_scheme := q_scheme q; colors := cache |} in
      let out := _get_color self (q_element q) in
      {| a_color_key := make_color_key (q_key q) (q_element q);
         a_rgba := fst (fst out);
         a_calls := snd out |}
      :: run_queries (colors (snd (fst out))) qs'
  end.

(** Number of [get_key_rgba] calls made under the cache key [k]. *)
Fixpoint lookup_count (k : color_key) (answers : list answer) : nat :=
  match answers with
  | [] => O
  | a :: rest =>
      ((if decide (a_color_key a = k) then length (a_calls a) else O)
       + lookup_count k rest)%nat
  end.

(** Every colour scheme met by the queries answers them with a non-empty
    list. *)
Definition schemes_answer (qs : list query) : Prop :=
  ∀ q scheme, q ∈ qs -> q_scheme q = Some scheme ->
    rgba_truthy (get_key_rgba scheme (q_key q) (q_element q)) = true.

(** ** Further methods of KeyCommon and RectKeyCommon *)

(** [self.pressed and not (self.active or self.locked or self.scanned)]. *)
Definition is_pressed_only (self : KeyCommon) : bool :=
  pressed self && negb (active self || locked self || scanned self).

(** The label alignment of a key: the attributes [label_x_align] and
    [label_y_align], whose defaults come from the configuration. *)
Record LabelAlign : Type := {
  label_x_align : Q;
  label_y_align : Q
}.

(** [align_label]: sizes are pairs (width, height). *)
Definition align_label (self : LabelAlign) (label_size key_size : Q * Q) : Q * Q :=
  let xoffset := (label_x_align self * (fst key_size - fst label_size))%Q in
  let yoffset := (label_y_align self * (snd key_size - snd label_size))%Q in
  (xoffset, yoffset).

(** The constants of the configuration object that [get_label_rect] reads;
    their values are set in [ChordKey.Config], which is not among the
    sources. The two borders are pairs (dx, dy). *)
Record ConfigConstants : Type := {
  DISH_KEY_BORDER : Q * Q;
  DISH_KEY_Y_OFFSET : Q;
  LABEL_MARGIN : Q * Q
}.

(** A rectangle moved by (dx, dy), its size kept. *)
Definition moved (rect : Rect.t) (dx dy : Q) : Rect.t :=
  {| Rect.x := (Rect.x rect + dx)%Q; Rect.y := (Rect.y rect + dy)%Q;
     Rect.w := Rect.w rect; Rect.h := Rect.h rect |}.

Section LabelRect.

Local Open Scope Q_scope.

Variable config : Config.
Variable constants : ConfigConstants.
Variable LayoutItem_get_rect : KeyCommon -> Rect.t.

(** [rect.y -= k]. *)
Definition sub_y (rect : Rect.t) (k : Q) : Rect.t :=
  {| Rect.x := Rect.x rect; Rect.y := Rect.y rect - k;
     Rect.w := Rect.w rect; Rect.h := Rect.h rect |}.

(** [get_label_rect(rect = None)]. *)
Definition get_label_rect (self : KeyCommon) (rect : option Rect.t) : Rect.t :=
  let rect :=
    match rect with
    | None => get_rect config LayoutItem_get_rect self
    | Some rect => rect
    end in
  if String.eqb (key_style (theme_settings config)) "dish" then
    let rect :=
      Rect.deflate rect (fst (DISH_KEY_BORDER constants))
        (snd (DISH_KEY_BORDER constants)) in
    let rect := sub_y rect (DISH_KEY_Y_OFFSET constants) in
    rect
  else
    Rect.deflate rect (fst (LABEL_MARGIN constants)) (snd (LABEL_MARGIN constants)).

End LabelRect.

(** The colour accessors. *)
Definition get_fill_color (self : RectKeyCommon) :=
  _get_color self "fill".

Definition get_stroke_color (self : RectKeyCommon) :=
  _get_color self "stroke".

Definition get_label_color (self : RectKeyCommon) :=
  _get_color self "label".

Definition get_dwell_progress_color (self : RectKeyCommon) :=
  _get_color self "dwell-progress".

(** The cache after a sequence of queries. *)
Fixpoint run_cache (cache : gmap color_key rgba_value) (qs : list query)
  : gmap color_key rgba_value :=
  match qs with
  | [] => cache
  | q :: qs' =>
      let self := {| key := q_key q; color_scheme := q_scheme q; colors := cache |} in
      run_cache (colors (snd (fst (_get_color self (q_element q))))) qs'
  end.

(** The element of a key of the cache, and the built-in colour of an
    element. *)
Definition key_element (k : color_key) : string :=
  fst (fst (fst (fst (fst (fst k))))).

Definition builtin_color (element : string) : rgba_value :=
  if String.eqb element "label"
  then Some [0.0; 0.0; 0.0; 1.0]%Q
  else Some [1.0; 1.0; 1.0; 1.0]%Q.

(** The id of the button of layer [n], the index written in decimal. *)
Definition layer_id (n : nat) : string :=
  "layer" ++ NilEmpty.string_of_uint (Nat.to_uint n).

(** ** Sample values *)

(** An interpreter with the limit of 4300 digits whose only decimal digits
    are 0 to 9. *)
Definition ascii_digits_only : Interpreter :=
  {| int_max_str_digits := 4300; decimal_zeros := [] |}.

(** A theme with gradient keys drawn at 94 percent of their size. *)
Definition config_gradient : Config :=
  {| theme_settings := {| key_style := "gradient"; key_size := 94.0 |} |}.

(** A key wider than high and a key higher than wide, at full size. *)
Definition rect_wide : Rect.t :=
  {| Rect.x := 10; Rect.y := 20; Rect.w := 40; Rect.h := 30 |}.

Definition rect_tall : Rect.t :=
  {| Rect.x := 0; Rect.y := 0; Rect.w := 30; Rect.h := 40 |}.

(** A key that is being pressed. *)
Definition pressed_key (id : string) : KeyCommon :=
  {| theme_id := None;
     id := id;
     prelight := false;
     pressed := true;
     active := false;
     locked := false;
     sensitive := true;
     scanned := false |}.

(** Sample margins of the label rectangle. *)
Definition constants_sample : ConfigConstants :=
  {| DISH_KEY_BORDER := (2.5, 2.5)%Q;
     DISH_KEY_Y_OFFSET := 0.8%Q;
     LABEL_MARGIN := (1, 1)%Q |}.

(** A key size of 100: keys drawn at their full size. *)
Definition config_full : Config :=
  {| theme_settings := {| key_style := "flat"; key_size := 100 |} |}.

(** A colour scheme that has no colour for any key, and one that paints
    every element red. *)
Definition scheme_nothing : ColorScheme :=
  {| get_key_rgba := fun _ _ => None |}.

Definition scheme_red : ColorScheme :=
  {| get_key_rgba := fun _ _ => Some [1.0; 0.0; 0.0; 1.0]%Q |}.

(** The fill colour of the key "DELE" asked under a given colour scheme. *)
Definition query_fill (scheme : option ColorScheme) : query :=
  {| q_key := plain_key "DELE"; q_scheme := scheme; q_element := "fill" |}.

(** The key "DELE" with an empty cache, under a given colour scheme. *)
Definition key_dele (scheme : option ColorScheme) : RectKeyCommon :=
  {| key := plain_key "DELE"; color_scheme := scheme; colors := ∅ |}.

(** * Properties *)

(** ** Label resolution *)

Lemma first_present_cons (c : option string) (rest : list (option string)) :
  first_present (c :: rest) = match c with Some s => Some s | None => first_present rest end.
Proof. destruct c; reflexivity. Qed.

(** The code computes the priority chain, and never raises. *)
Lemma configure_label_resolve (M : ModifierDefs) (labels : gmap Z string) (mask : Z) :
  configure_label M labels mask = Ok (Some (resolve_label M labels mask)).
Proof.
  unfold configure_label, resolve_label, legacy_slot, bit_set, truthy,
    dict_in, dict_item, is_None.
  destruct (labels !! mask) as [l0|] eqn:Hexact; [reflexivity|].
  destruct (labels !! Z.land mask (LABEL_MODIFIERS M)) as [l1|] eqn:Hmasked;
    [reflexivity|].
  destruct (negb (Z.land mask (SHIFT M) =? 0)%Z),
    (negb (Z.land mask (ALTGR M) =? 0)%Z),
    (negb (Z.land mask (CAPS M) =? 0)%Z);
    destruct (labels !! 129), (labels !! 1), (labels !! 2), (labels !! 128),
      (labels !! 0); reflexivity.
Qed.

Lemma configure_label_exact (M : ModifierDefs) (labels : gmap Z string) (mask : Z) (s : string) :
  labels !! mask = Some s -> configure_label M labels mask = Ok (Some s).
Proof.
  intros Hexact. rewrite configure_label_resolve. unfold resolve_label.
  rewrite first_present_cons, Hexact. reflexivity.
Qed.

(** C1. [configure_label] selects the label by the priority chain of the
    specification, first match wins: the entry at the mask itself, the entry
    at the mask restricted to [LABEL_MODIFIERS], the legacy slots (129, 1, 2
    under Shift, else 128 under AltGr, else 2, 1 under CapsLock), slot 0,
    and the empty string. An entry at the literal mask wins whatever else
    the map holds, and the five examples of the specification come out as
    stated. *)
Theorem configure_label_priority :
  (∀ (M : ModifierDefs) (labels : gmap Z string) (mask : Z),
     configure_label M labels mask = Ok (Some (resolve_label M labels mask)))
  ∧ (∀ (M : ModifierDefs) (labels : gmap Z string) (mask : Z) (s : string),
       configure_label M (<[mask := s]> labels) mask = Ok (Some s))
  ∧ (∀ lm : Z,
       let M := legacy_bits lm in
       configure_label M labels_abcde (SHIFT M) = Ok (Some "b")
       ∧ configure_label M labels_abcde (Z.lor (SHIFT M) (ALTGR M)) = Ok (Some "e")
       ∧ configure_label M labels_abcde (ALTGR M) = Ok (Some "d")
       ∧ configure_label M labels_ac (CAPS M) = Ok (Some "c")
       ∧ configure_label M ∅ 0 = Ok (Some "")).
Proof.
  split; [exact configure_label_resolve|].
  split.
  - intros M labels mask s. apply configure_label_exact, lookup_insert_eq.
  - intros lm M.
    refine (conj _ (conj _ (conj _ (conj _ _))));
      [apply configure_label_exact; reflexivity ..|].
    rewrite configure_label_resolve.
    unfold resolve_label, legacy_slot, dict_in.
    rewrite !lookup_empty. reflexivity.
Qed.


(** ** Sticky behaviour *)

(** C9. [StickyBehavior.from_string] returns the enum member of each of the
    four tokens and, for every other string, raises at once: the error is
    Python's [KeyError] of the failed lookup (the typed error that the
    specification calls a configuration error); no default is returned. *)
Theorem from_string_tokens (str_value : string) :
  StickyBehavior.from_string str_value =
    if decide (str_value = "cycle") then Ok StickyBehavior.CYCLE
    else if decide (str_value = "dblclick") then Ok StickyBehavior.DOUBLE_CLICK
    else if decide (str_value = "latch") then Ok StickyBehavior.LATCH_ONLY
    else if decide (str_value = "lock") then Ok StickyBehavior.LOCK_ONLY
    else Raise KeyError.
Proof.
  unfold StickyBehavior.from_string, StickyBehavior.values, dict_item.
  repeat (case_decide;
          [subst; reflexivity | rewrite lookup_insert_ne by congruence]).
  rewrite lookup_empty. reflexivity.
Qed.

(** ** Identity and theme id *)

(** The first piece of a split is the part before the first separator. *)
Lemma str_split_head (sep : ascii) (s : string) :
  ∃ piece pieces,
    str_split sep s = piece :: pieces
    ∧ str_contains sep piece = false
    ∧ (s = piece ∧ pieces = [] ∨ ∃ rest, s = piece ++ String sep rest).
Proof.
  induction s as [|c s IH]; simpl.
  - exists EmptyString, []. auto.
  - destruct (Ascii.eqb c sep) eqn:Hc.
    + apply Ascii.eqb_eq in Hc. subst c.
      exists EmptyString, (str_split sep s). simpl. eauto.
    + destruct IH as (piece & pieces & -> & Hnone & Hshape).
      exists (String c piece), pieces. simpl. rewrite Hc, Hnone.
      repeat split.
      destruct Hshape as [[-> ->] | [rest ->]]; [left | right]; eauto.
Qed.

Lemma str_contains_app (c : ascii) (s1 s2 : string) :
  str_contains c (s1 ++ s2) = str_contains c s1 || str_contains c s2.
Proof.
  induction s1 as [|c1 s1 IH]; simpl; [reflexivity|].
  rewrite IH. apply orb_assoc.
Qed.

(** C8, as the code has it. [set_id] raises nothing; the stored id is the
    part of the assigned string before its first '.' (all of it when there
    is none) and holds no '.'; the stored theme id is the assigned string
    itself, so it holds a '.' exactly when that string does, that is when
    the id is a proper prefix of it. *)
Theorem set_id_identity (self : KeyCommon) (value : string) :
  ∃ self' : KeyCommon,
    set_id self value = Ok self'
    ∧ theme_id self' = Some value
    ∧ str_contains "." (id self') = false
    ∧ (value = id self' ∨ ∃ rest, value = id self' ++ String "." rest)
    ∧ (str_contains "." value = true ↔ value ≠ id self').
Proof.
  unfold set_id, split_id, list_item.
  destruct (str_split_head "." value) as (piece & pieces & Hsplit & Hnone & Hshape).
  rewrite Hsplit. simpl.
  eexists. split; [reflexivity|]. simpl.
  split; [reflexivity|]. split; [exact Hnone|].
  split.
  - destruct Hshape as [[-> _] | [rest ->]]; eauto.
  - destruct Hshape as [[-> _] | [rest ->]].
    + rewrite Hnone. split; [discriminate | congruence].
    + rewrite str_contains_app. simpl. rewrite orb_true_r.
      split; [|reflexivity]. intros _ Heq.
      rewrite <- Heq, str_contains_app in Hnone. simpl in Hnone.
      rewrite orb_true_r in Hnone. discriminate.
Qed.

(** C8, as stated, fails on an id without a '.': [set_id] stores "DELE" as
    the theme id as well. *)
Lemma set_id_theme_id_without_dot :
  set_id (plain_key "") "DELE"
  = Ok {| theme_id := Some "DELE"; id := "DELE"; prelight := false;
          pressed := false; active := false; locked := false;
          sensitive := true; scanned := false |}
  ∧ str_contains "." "DELE" = false.
Proof. split; reflexivity. Qed.

(** ** Layer buttons *)

Lemma is_digit_not_space (c : ascii) : is_digit c = true -> is_space c = false.
Proof.
  unfold is_digit, is_space. intros Hd.
  apply andb_true_iff in Hd as [Hlo Hhi].
  apply Z.leb_le in Hlo, Hhi.
  apply orb_false_iff; split.
  - apply andb_false_iff. right. apply Z.leb_gt. lia.
  - apply Z.eqb_neq. lia.
Qed.

Lemma is_digit_not_mark (c : ascii) :
  is_digit c = true ->
  Ascii.eqb c "-" = false ∧ Ascii.eqb c "+" = false ∧ Ascii.eqb c "_" = false.
Proof.
  intros Hd. repeat split.
  - destruct (Ascii.eqb_spec c "-") as [->|]; [discriminate Hd | reflexivity].
  - destruct (Ascii.eqb_spec c "+") as [->|]; [discriminate Hd | reflexivity].
  - destruct (Ascii.eqb_spec c "_") as [->|]; [discriminate Hd | reflexivity].
Qed.

Lemma rstrip_digits (s : string) : all_digits s = true -> rstrip s = s.
Proof.
  induction s as [|c s IH]; simpl; [reflexivity|].
  intros Hall. apply andb_true_iff in Hall as [Hd Hall].
  rewrite (IH Hall). destruct s; [|reflexivity].
  rewrite (is_digit_not_space c Hd). reflexivity.
Qed.

Lemma int_digits_all_digits (s : string) (acc : Z) :
  all_digits s = true -> int_digits s acc true = Some (digits_value s acc).
Proof.
  revert acc. induction s as [|c s IH]; simpl; intros acc Hall; [reflexivity|].
  apply andb_true_iff in Hall as [Hd Hall].
  rewrite Hd. apply IH, Hall.
Qed.

Lemma count_digits_all_digits (s : string) :
  all_digits s = true -> count_digits s = String.length s.
Proof.
  induction s as [|c s IH]; simpl; [reflexivity|].
  intros Hall. apply andb_true_iff in Hall as [-> Hall].
  rewrite (IH Hall). reflexivity.
Qed.

(** An ASCII text of digits is stripped of nothing and, when it is not
    empty, parsed as its value. *)
Lemma long_from_string_digits (max_str_digits : nat) (digits : string) :
  digits ≠ EmptyString -> all_digits digits = true ->
  long_from_string max_str_digits digits
  = if exceeds_max_str_digits max_str_digits (String.length digits)
    then Raise ValueError
    else Ok (digits_value digits 0).
Proof.
  intros Hne Hall. destruct digits as [|c ds]; [congruence|].
  pose proof Hall as Hall'. simpl in Hall'.
  apply andb_true_iff in Hall' as [Hd Hds].
  destruct (is_digit_not_mark c Hd) as (Hminus & Hplus & _).
  unfold long_from_string.
  replace (lstrip (String c ds)) with (String c ds)
    by (simpl; rewrite (is_digit_not_space c Hd); reflexivity).
  rewrite (rstrip_digits _ Hall), Hminus, Hplus.
  rewrite (count_digits_all_digits _ Hall).
  simpl int_digits. rewrite Hd, (int_digits_all_digits ds _ Hds). reflexivity.
Qed.

Lemma chr_ord (c : ascii) : chr (ord c) = c.
Proof. unfold chr, ord. rewrite Nat2Z.id. apply ascii_nat_embedding. Qed.

(** A string of code points below 128 is its own ASCII text. *)
Lemma ascii_text_ascii (py : Interpreter) (s : string) :
  str_forall is_ascii s = true ->
  code_points s ≫= ascii_text py = Some s.
Proof.
  intros Hall.
  assert (∃ points : list Z,
            code_points s = Some points ∧ ascii_text py points = Some s)
    as (points & -> & Htext); [|exact Htext].
  induction s as [|c s IH]; [exists []; split; reflexivity|].
  simpl in Hall. apply andb_true_iff in Hall as [Hc Hall].
  destruct (IH Hall) as (points & Hpoints & Htext).
  exists (ord c :: points). unfold is_ascii in Hc. split.
  - cbn [code_points]. cbv zeta. rewrite Hc, Hpoints. reflexivity.
  - cbn [ascii_text]. unfold ascii_of_point. rewrite Hc, Htext, chr_ord.
    reflexivity.
Qed.

Lemma py_int_ascii (py : Interpreter) (s : string) :
  str_forall is_ascii s = true ->
  py_int py s = long_from_string (int_max_str_digits py) s.
Proof.
  intros Hall. unfold py_int. rewrite (ascii_text_ascii py s Hall). reflexivity.
Qed.

Lemma is_digit_ascii (c : ascii) : is_digit c = true -> is_ascii c = true.
Proof.
  unfold is_digit, is_ascii, ord. intros Hd.
  apply andb_true_iff in Hd as [_ Hhi]. apply Z.leb_le in Hhi.
  apply Z.ltb_lt. lia.
Qed.

Lemma all_digits_ascii (s : string) :
  all_digits s = true -> str_forall is_ascii s = true.
Proof.
  induction s as [|c s IH]; simpl; [reflexivity|].
  intros Hall. apply andb_true_iff in Hall as [Hd Hall].
  rewrite (is_digit_ascii c Hd), (IH Hall). reflexivity.
Qed.

(** [int] of a non-empty string of the digits 0 to 9: their value, unless
    there are more of them than the limit allows. *)
Lemma py_int_digits_parse (py : Interpreter) (digits : string) :
  digits ≠ EmptyString -> all_digits digits = true ->
  py_int py digits
  = if exceeds_max_str_digits (int_max_str_digits py) (String.length digits)
    then Raise ValueError
    else Ok (digits_value digits 0).
Proof.
  intros Hne Hall. rewrite (py_int_ascii py _ (all_digits_ascii _ Hall)).
  apply long_from_string_digits; assumption.
Qed.

Lemma py_int_digits (py : Interpreter) (digits : string) :
  digits ≠ EmptyString -> all_digits digits = true ->
  exceeds_max_str_digits (int_max_str_digits py) (String.length digits) = false ->
  py_int py digits = Ok (digits_value digits 0).
Proof.
  intros Hne Hall Hlimit.
  rewrite (py_int_digits_parse _ _ Hne Hall), Hlimit. reflexivity.
Qed.

Lemma startswith_drop (s prefix : string) :
  startswith s prefix = true -> s = prefix ++ str_drop (String.length prefix) s.
Proof.
  revert s. induction prefix as [|a prefix IH]; intros s; [reflexivity|].
  destruct s as [|b s]; simpl; [discriminate|].
  intros H. apply andb_true_iff in H as [Hab Hrest].
  apply Ascii.eqb_eq in Hab as ->.
  change (String b s = String b (prefix ++ str_drop (String.length prefix) s)).
  f_equal. apply IH, Hrest.
Qed.

(** *** What a string that [int] accepts is made of *)

Lemma int_digits_chars (s : string) (acc : Z) (after_digit : bool) (n : Z) :
  int_digits s acc after_digit = Some n ->
  str_forall numeral_char s = true
  ∧ (after_digit = true ∨ str_exists is_digit s = true).
Proof.
  revert acc after_digit.
  induction s as [|c s IH]; simpl; intros acc after_digit Hparse.
  - destruct after_digit; [auto | discriminate].
  - unfold numeral_char at 1. destruct (is_digit c) eqn:Hd; simpl.
    + destruct (IH _ _ Hparse) as [Hall _]. auto.
    + destruct (Ascii.eqb c "_") eqn:Hu; simpl in *; [|discriminate].
      destruct after_digit; [|discriminate].
      destruct (IH _ _ Hparse) as [Hall [Habs | Hex]]; [discriminate|].
      rewrite !orb_true_r. auto.
Qed.

Lemma rstrip_empty_spaces (s : string) :
  rstrip s = EmptyString -> str_forall is_space s = true.
Proof.
  induction s as [|c s IH]; simpl; [reflexivity|].
  destruct (rstrip s); [|discriminate].
  destruct (is_space c); [intros _; apply IH; reflexivity | discriminate].
Qed.

Lemma is_space_numeral_char (c : ascii) : is_space c = true -> numeral_char c = true.
Proof. unfold numeral_char. intros ->. rewrite orb_true_r. reflexivity. Qed.

Lemma str_forall_spaces (s : string) :
  str_forall is_space s = true -> str_forall numeral_char s = true.
Proof.
  induction s as [|c s IH]; simpl; [reflexivity|].
  intros H. apply andb_true_iff in H as [Hc Hs].
  rewrite (is_space_numeral_char c Hc). apply IH, Hs.
Qed.

Lemma rstrip_chars (s : string) :
  (str_forall numeral_char (rstrip s) = true -> str_forall numeral_char s = true)
  ∧ (str_exists is_digit (rstrip s) = true -> str_exists is_digit s = true).
Proof.
  induction s as [|c s [IHall IHex]]; simpl; [auto|].
  destruct (rstrip s) as [|c' r] eqn:Hr.
  - pose proof (str_forall_spaces s (rstrip_empty_spaces s Hr)) as Hs.
    destruct (is_space c) eqn:Hc; simpl.
    + rewrite (is_space_numeral_char c Hc), Hs. split; [auto | discriminate].
    + rewrite Hs, !andb_true_r, !orb_false_r. split; [auto|].
      intros ->. reflexivity.
  - simpl in *. split.
    + intros H. apply andb_true_iff in H as [-> H]. auto.
    + intros H. apply orb_true_iff in H as [-> | H]; [reflexivity|].
      rewrite (IHex H). apply orb_true_r.
Qed.

Lemma lstrip_chars (s : string) :
  (str_forall numeral_char (lstrip s) = true -> str_forall numeral_char s = true)
  ∧ (str_exists is_digit (lstrip s) = true -> str_exists is_digit s = true).
Proof.
  induction s as [|c s [IHall IHex]]; simpl; [auto|].
  destruct (is_space c) eqn:Hc; simpl; [|auto].
  rewrite (is_space_numeral_char c Hc). split; [auto|].
  intros H. rewrite (IHex H). apply orb_true_r.
Qed.

(** An ASCII text is parsed only if it is made of numeral characters, a
    digit among them. *)
Lemma long_from_string_Ok_chars (max_str_digits : nat) (text : string) (n : Z) :
  long_from_string max_str_digits text = Ok n ->
  str_forall numeral_char text = true ∧ str_exists is_digit text = true.
Proof.
  unfold long_from_string. intros Hparse.
  assert (str_forall numeral_char (rstrip (lstrip text)) = true
          ∧ str_exists is_digit (rstrip (lstrip text)) = true) as [Hall Hex].
  { destruct (rstrip (lstrip text)) as [|c ds]; [discriminate|].
    destruct (Ascii.eqb c "-") eqn:Hminus;
      [|destruct (Ascii.eqb c "+") eqn:Hplus].
    - destruct (int_digits ds 0 false) as [m|] eqn:Hds; [|discriminate].
      destruct (int_digits_chars _ _ _ _ Hds) as [Hall [Habs | Hex]];
        [discriminate|].
      simpl. unfold numeral_char at 1.
      rewrite Hminus, Hall, Hex, !orb_true_r. auto.
    - destruct (int_digits ds 0 false) as [m|] eqn:Hds; [|discriminate].
      destruct (int_digits_chars _ _ _ _ Hds) as [Hall [Habs | Hex]];
        [discriminate|].
      simpl. unfold numeral_char at 1.
      rewrite Hplus, Hall, Hex, !orb_true_r. auto.
    - destruct (int_digits (String c ds) 0 false) as [m|] eqn:Hds; [|discriminate].
      destruct (int_digits_chars _ _ _ _ Hds) as [Hall [Habs | Hex]];
        [discriminate | auto]. }
  split.
  - apply lstrip_chars, rstrip_chars, Hall.
  - apply lstrip_chars, rstrip_chars, Hex.
Qed.

(** A numeral character of the ASCII text comes from a numeral code point
    of the string, a digit from a digit. *)
Lemma ascii_of_point_chars (py : Interpreter) (p : Z) (c : ascii) :
  ascii_of_point py p = Some c ->
  (numeral_char c = true -> numeral_point py p = true)
  ∧ (is_digit c = true -> digit_point py p = true).
Proof.
  unfold ascii_of_point, numeral_point, digit_point.
  destruct (p <? 128)%Z.
  - intros [= <-]. auto.
  - destruct (unicode_space p); simpl.
    + intros [= <-]. split; [auto | discriminate].
    + destruct (unicode_decimal (decimal_zeros py) p); simpl; [auto | discriminate].
Qed.

Lemma ascii_text_chars (py : Interpreter) (points : list Z) (text : string) :
  ascii_text py points = Some text ->
  (str_forall numeral_char text = true ->
     forallb (numeral_point py) points = true)
  ∧ (str_exists is_digit text = true ->
       existsb (digit_point py) points = true).
Proof.
  revert text. induction points as [|p points IH]; intros text; simpl.
  - intros [= <-]. auto.
  - destruct (ascii_of_point py p) as [c|] eqn:Hc; simpl; [|discriminate].
    destruct (ascii_text py points) as [text'|]; simpl; [|discriminate].
    intros [= <-]. simpl.
    destruct (ascii_of_point_chars py p c Hc) as [Hnumeral Hdigit].
    destruct (IH text' eq_refl) as [IHall IHex]. split.
    + intros H. apply andb_true_iff in H as [Hn Hs].
      rewrite (Hnumeral Hn), (IHall Hs). reflexivity.
    + intros H. apply orb_true_iff in H as [Hd | Hs].
      * rewrite (Hdigit Hd). reflexivity.
      * rewrite (IHex Hs). apply orb_true_r.
Qed.

(** [int] succeeds only on numeral code points, a digit among them. *)
Lemma py_int_Ok_chars (py : Interpreter) (s : string) (n : Z) :
  py_int py s = Ok n ->
  ∃ points : list Z,
    code_points s = Some points
    ∧ forallb (numeral_point py) points = true
    ∧ existsb (digit_point py) points = true.
Proof.
  unfold py_int. intros Hparse.
  destruct (code_points s) as [points|]; simpl in Hparse; [|discriminate].
  destruct (ascii_text py points) as [text|] eqn:Htext; [|discriminate].
  destruct (long_from_string_Ok_chars _ _ _ Hparse) as [Hall Hex].
  destruct (ascii_text_chars py points text Htext) as [Hnumeral Hdigit].
  exists points. auto.
Qed.

Lemma get_layer_index_layer (py : Interpreter) (self : KeyCommon)
    (suffix : string) :
  id self = "layer" ++ suffix ->
  is_layer_button self = true
  ∧ get_layer_index py self = py_int py suffix.
Proof.
  intros Hid. unfold get_layer_index, is_layer_button. rewrite Hid.
  split; reflexivity.
Qed.

(** C10. [get_layer_index] raises [AssertionError] on a key that is no layer
    button; on an id "layer" followed by a suffix it is [int] of the suffix.
    So it returns an integer only if the suffix is accepted by [int], which
    takes numeral code points only (white space, a sign, underscores and
    decimal digits) with a digit among them: on the ids "layer" and
    "layerA", layer buttons both, the conversion raises [ValueError]. On
    "layer" followed by a non-empty string of the digits 0 to 9 it returns
    their value, unless there are more digits than the interpreter's limit
    for [int] allows, when it raises [ValueError] as well. This holds for
    every setting of the limit and every table of decimal digits. *)
Theorem get_layer_index_partial (py : Interpreter) :
  (∀ self : KeyCommon,
     is_layer_button self = false ->
     get_layer_index py self = Raise AssertionError)
  ∧ (∀ (self : KeyCommon) (suffix : string),
       id self = "layer" ++ suffix ->
       is_layer_button self = true
       ∧ get_layer_index py self = py_int py suffix)
  ∧ (∀ (self : KeyCommon) (n : Z),
       get_layer_index py self = Ok n ->
       ∃ (suffix : string) (points : list Z),
         id self = "layer" ++ suffix
         ∧ py_int py suffix = Ok n
         ∧ code_points suffix = Some points
         ∧ forallb (numeral_point py) points = true
         ∧ existsb (digit_point py) points = true)
  ∧ (is_layer_button (plain_key "layer") = true
     ∧ get_layer_index py (plain_key "layer") = Raise ValueError)
  ∧ (is_layer_button (plain_key "layerA") = true
     ∧ get_layer_index py (plain_key "layerA") = Raise ValueError)
  ∧ (∀ (self : KeyCommon) (digits : string),
       id self = "layer" ++ digits ->
       digits ≠ EmptyString -> all_digits digits = true ->
       exceeds_max_str_digits (int_max_str_digits py) (String.length digits)
       = false ->
       get_layer_index py self = Ok (digits_value digits 0))
  ∧ (∀ (self : KeyCommon) (digits : string),
       id self = "layer" ++ digits ->
       all_digits digits = true ->
       exceeds_max_str_digits (int_max_str_digits py) (String.length digits)
       = true ->
       get_layer_index py self = Raise ValueError).
Proof.
  refine (conj _ (conj (get_layer_index_layer py)
                    (conj _ (conj _ (conj _ (conj _ _)))))).
  - intros self Hno. unfold get_layer_index. rewrite Hno. reflexivity.
  - intros self n Hok. unfold get_layer_index in Hok.
    destruct (is_layer_button self) eqn:Hlayer; [|discriminate].
    simpl in Hok.
    destruct (py_int_Ok_chars _ _ _ Hok) as (points & Hpoints & Hall & Hex).
    exists (str_drop 5 (id self)), points.
    split; [exact (startswith_drop _ "layer" Hlayer)|]. auto.
  - split; reflexivity.
  - split; reflexivity.
  - intros self digits Hid Hne Hall Hlimit.
    destruct (get_layer_index_layer py self digits Hid) as [_ ->].
    apply py_int_digits; assumption.
  - intros self digits Hid Hall Hlimit.
    destruct (get_layer_index_layer py self digits Hid) as [_ ->].
    rewrite py_int_digits_parse, Hlimit; [reflexivity | | exact Hall].
    intros ->. discriminate Hlimit.
Qed.

(** The key "layer12" has the layer index 12 on CPython 3.11. *)
Lemma get_layer_index_partial_witness :
  get_layer_index cpython_3_11 (plain_key "layer12") = Ok 12.
Proof.
  apply (proj1 (proj2 (proj2 (proj2 (proj2 (proj2
                  (get_layer_index_partial cpython_3_11))))))
           (plain_key "layer12") "12").
  - reflexivity.
  - discriminate.
  - reflexivity.
  - reflexivity.
Defined.

(** ** Geometry *)

Section GeometryFacts.

Local Open Scope Q_scope.

Variable config : Config.
Variable LayoutItem_get_rect : KeyCommon -> Rect.t.

Lemma Qlt_bool_true (a b : Q) : Qlt_bool a b = true <-> a < b.
Proof.
  unfold Qlt_bool. rewrite negb_true_iff, <- not_true_iff_false, Qle_bool_iff.
  split; [apply Qnot_le_lt | apply Qlt_not_le].
Qed.

Lemma Qlt_bool_false (a b : Q) : Qlt_bool a b = false <-> b <= a.
Proof.
  unfold Qlt_bool. rewrite negb_false_iff. apply Qle_bool_iff.
Qed.

Lemma Qle_bool_false (a b : Q) : Qle_bool a b = false <-> b < a.
Proof.
  rewrite <- not_true_iff_false, Qle_bool_iff.
  split; [apply Qnot_le_lt | apply Qlt_not_le].
Qed.

(** C3. In [get_rect] a pressed key has its full-size rectangle moved
    before the shrink to key size: by (0.2, 0.4) in the style "gradient"
    and by (0.45, 0.90) in the style "dish", width and height staying as
    they are; in any other style, and when the key is not pressed,
    [get_rect] returns what [get_unpressed_rect] returns. *)
Theorem get_rect_pressed_offset (self : KeyCommon) :
  let rect := get_fullsize_rect LayoutItem_get_rect self in
  let style := key_style (theme_settings config) in
  (pressed self = true -> style = "gradient"%string ->
     get_rect config LayoutItem_get_rect self
     = _apply_key_size config
         {| Rect.x := Rect.x rect + 0.2; Rect.y := Rect.y rect + 0.4;
            Rect.w := Rect.w rect; Rect.h := Rect.h rect |})
  ∧ (pressed self = true -> style = "dish"%string ->
       get_rect config LayoutItem_get_rect self
       = _apply_key_size config
           {| Rect.x := Rect.x rect + 0.45; Rect.y := Rect.y rect + 0.90;
              Rect.w := Rect.w rect; Rect.h := Rect.h rect |})
  ∧ (pressed self = false
     ∨ (style ≠ "gradient"%string ∧ style ≠ "dish"%string) ->
       get_rect config LayoutItem_get_rect self
       = get_unpressed_rect config LayoutItem_get_rect self).
Proof.
  intros rect style. unfold get_rect, get_unpressed_rect. fold rect style.
  repeat split.
  - intros -> ->. reflexivity.
  - intros -> ->. reflexivity.
  - intros [-> | [Hgradient Hdish]]; [reflexivity|].
    apply String.eqb_neq in Hgradient, Hdish.
    rewrite Hgradient, Hdish. destruct (pressed self); reflexivity.
Qed.

(** The amounts, case by case. *)
Lemma key_size_borders_cases (rect : Rect.t) :
  let size := key_size (theme_settings config) / 100.0 in
  let bx := Rect.w rect * (1.0 - size) / 2.0 in
  let by_ := Rect.h rect * (1.0 - size) / 2.0 in
  (Rect.w rect < Rect.h rect -> key_size_borders config rect = (bx, bx))
  ∧ (Rect.h rect < Rect.w rect -> key_size_borders config rect = (by_, by_))
  ∧ (Rect.w rect == Rect.h rect -> key_size_borders config rect = (bx, by_)).
Proof.
  intros size bx by_. unfold key_size_borders, Qgt_bool. fold size bx by_.
  repeat split.
  - intros Htall.
    rewrite (proj2 (Qlt_bool_true _ _) Htall).
    rewrite (proj2 (Qlt_bool_false _ _) (Qlt_le_weak _ _ Htall)). reflexivity.
  - intros Hwide.
    rewrite (proj2 (Qlt_bool_true _ _) Hwide).
    rewrite (proj2 (Qlt_bool_false _ _) (Qlt_le_weak _ _ Hwide)). reflexivity.
  - intros Hsquare.
    rewrite (proj2 (Qlt_bool_false (Rect.w rect) (Rect.h rect))),
      (proj2 (Qlt_bool_false (Rect.h rect) (Rect.w rect)));
      [reflexivity | rewrite Hsquare; apply Qle_refl
       | rewrite Hsquare; apply Qle_refl].
Qed.

(** C5. In [_apply_key_size] a rectangle higher than wide is deflated on
    both axes by the amount derived from its width, a rectangle wider than
    high by the amount derived from its height; when width and height are
    equal each axis keeps its own amount, and the two are equal. *)
Theorem key_size_borders_coupling (rect : Rect.t) :
  let size := key_size (theme_settings config) / 100.0 in
  let bx := Rect.w rect * (1.0 - size) / 2.0 in
  let by_ := Rect.h rect * (1.0 - size) / 2.0 in
  (Rect.w rect < Rect.h rect ->
     key_size_borders config rect = (bx, bx)
     ∧ _apply_key_size config rect = Rect.deflate rect bx bx)
  ∧ (Rect.h rect < Rect.w rect ->
       key_size_borders config rect = (by_, by_)
       ∧ _apply_key_size config rect = Rect.deflate rect by_ by_)
  ∧ (Rect.w rect == Rect.h rect ->
       key_size_borders config rect = (bx, by_)
       ∧ _apply_key_size config rect = Rect.deflate rect bx by_
       ∧ bx == by_).
Proof.
  intros size bx by_.
  destruct (key_size_borders_cases rect) as (Htall & Hwide & Hsquare).
  fold size bx by_ in Htall, Hwide, Hsquare. unfold _apply_key_size.
  split; [|split].
  - intros Hlt. rewrite (Htall Hlt). split; reflexivity.
  - intros Hlt. rewrite (Hwide Hlt). split; reflexivity.
  - intros Heq. rewrite (Hsquare Heq).
    split; [reflexivity|]. split; [reflexivity|].
    unfold bx, by_. rewrite Heq. reflexivity.
Qed.

Lemma Qmult_fraction_le (a t : Q) : 0 <= a -> t <= 1 -> a * t <= a.
Proof. intros Ha Ht. nra. Qed.

(** Division by the constants of the code, as a product. *)
Lemma Qdiv_hundred (a : Q) : a / 100.0 == a * (1 # 100).
Proof. field. Qed.

Lemma Qdiv_two_point (a : Q) : a / 2.0 == a * (1 # 2).
Proof. field. Qed.

Lemma Qdiv_two (a : Q) : a / 2 == a * (1 # 2).
Proof. field. Qed.

(** The amounts are not negative and take at most half of the smaller
    side. *)
Lemma key_size_borders_bounds (rect : Rect.t) :
  0 <= Rect.w rect -> 0 <= Rect.h rect ->
  0 < key_size (theme_settings config) ->
  key_size (theme_settings config) <= 100 ->
  0 <= fst (key_size_borders config rect)
  ∧ 0 <= snd (key_size_borders config rect)
  ∧ 2 * fst (key_size_borders config rect) <= Rect.w rect
  ∧ 2 * snd (key_size_borders config rect) <= Rect.h rect.
Proof.
  intros Hw Hh Hpos Hmax.
  unfold key_size_borders, Qgt_bool.
  assert (0 <= 1.0 - key_size (theme_settings config) / 100.0) as Ht0
    by (rewrite Qdiv_hundred; lra).
  assert (1.0 - key_size (theme_settings config) / 100.0 <= 1) as Ht1
    by (rewrite Qdiv_hundred; lra).
  remember (1.0 - key_size (theme_settings config) / 100.0) as t eqn:Et.
  clear Et Hpos Hmax.
  pose proof (Qmult_le_0_compat _ _ Hw Ht0) as Hwt0.
  pose proof (Qmult_le_0_compat _ _ Hh Ht0) as Hht0.
  pose proof (Qmult_fraction_le _ _ Hw Ht1) as Hwt1.
  pose proof (Qmult_fraction_le _ _ Hh Ht1) as Hht1.
  destruct (Qlt_bool (Rect.w rect) (Rect.h rect)) eqn:Htall;
    destruct (Qlt_bool (Rect.h rect) (Rect.w rect)) eqn:Hwide; simpl;
    try apply Qlt_bool_true in Htall; try apply Qlt_bool_true in Hwide;
    try apply Qlt_bool_false in Htall; try apply Qlt_bool_false in Hwide;
    rewrite !Qdiv_two_point; repeat split; lra.
Qed.

(** At key size 100 nothing is taken. *)
Lemma key_size_borders_full (rect : Rect.t) :
  key_size (theme_settings config) == 100 ->
  fst (key_size_borders config rect) == 0
  ∧ snd (key_size_borders config rect) == 0.
Proof.
  intros Hfull. unfold key_size_borders.
  assert (1.0 - key_size (theme_settings config) / 100.0 == 0) as Hzero
    by (rewrite Hfull; reflexivity).
  destruct (Qgt_bool _ _), (Qlt_bool _ _); simpl; rewrite Hzero;
    split; field.
Qed.

(** In this range the clamp of [deflate] changes nothing: each dimension is
    the plain difference. *)
Lemma apply_key_size_unclamped (rect : Rect.t) :
  0 <= Rect.w rect -> 0 <= Rect.h rect ->
  0 < key_size (theme_settings config) ->
  key_size (theme_settings config) <= 100 ->
  Rect.w (_apply_key_size config rect)
  == Rect.w rect - 2 * fst (key_size_borders config rect)
  ∧ Rect.h (_apply_key_size config rect)
    == Rect.h rect - 2 * snd (key_size_borders config rect).
Proof.
  intros Hw Hh Hpos Hmax.
  destruct (key_size_borders_bounds rect Hw Hh Hpos Hmax)
    as (_ & _ & Hbx & Hby).
  unfold _apply_key_size.
  destruct (key_size_borders config rect) as [bx by_]. simpl in *.
  split.
  - destruct (Qle_bool (Rect.w rect / 2) bx) eqn:Hclamp; [|reflexivity].
    apply Qle_bool_iff in Hclamp. rewrite Qdiv_two in Hclamp. lra.
  - destruct (Qle_bool (Rect.h rect / 2) by_) eqn:Hclamp; [|reflexivity].
    apply Qle_bool_iff in Hclamp. rewrite Qdiv_two in Hclamp. lra.
Qed.

(** C4. For a rectangle of non-negative width and height and a key size in
    (0, 100], [_apply_key_size] returns a rectangle that is neither wider
    nor higher; at key size 100 it returns the rectangle it was given. *)
Theorem apply_key_size_shrinks (rect : Rect.t) :
  0 <= Rect.w rect -> 0 <= Rect.h rect ->
  0 < key_size (theme_settings config) ->
  key_size (theme_settings config) <= 100 ->
  Rect.w (_apply_key_size config rect) <= Rect.w rect
  ∧ Rect.h (_apply_key_size config rect) <= Rect.h rect
  ∧ (key_size (theme_settings config) == 100 ->
       Rect.equiv (_apply_key_size config rect) rect).
Proof.
  intros Hw Hh Hpos Hmax.
  destruct (key_size_borders_bounds rect Hw Hh Hpos Hmax)
    as (Hbx0 & Hby0 & Hbx1 & Hby1).
  pose proof (key_size_borders_full rect) as Hfull.
  unfold _apply_key_size.
  destruct (key_size_borders config rect) as [bx by_]. simpl in *.
  unfold Rect.deflate, Rect.equiv. simpl.
  assert (Rect.w rect - 2 * bx <= Rect.w rect) as Hwle by lra.
  assert (Rect.h rect - 2 * by_ <= Rect.h rect) as Hhle by lra.
  split; [destruct (Qle_bool (Rect.w rect / 2) bx); assumption|].
  split; [destruct (Qle_bool (Rect.h rect / 2) by_); assumption|].
  intros Hsize. destruct (Hfull Hsize) as [Hbx Hby].
  repeat split.
  - rewrite Hbx. ring.
  - rewrite Hby. ring.
  - destruct (Qle_bool (Rect.w rect / 2) bx) eqn:Hclamp.
    + apply Qle_bool_iff in Hclamp. rewrite Qdiv_two in Hclamp. lra.
    + rewrite Hbx. ring.
  - destruct (Qle_bool (Rect.h rect / 2) by_) eqn:Hclamp.
    + apply Qle_bool_iff in Hclamp. rewrite Qdiv_two in Hclamp. lra.
    + rewrite Hby. ring.
Qed.

End GeometryFacts.

(** A pressed gradient key whose full size is [rect_wide]. *)
Lemma get_rect_pressed_offset_witness :
  get_rect config_gradient (fun _ => rect_wide) (pressed_key "DELE")
  = _apply_key_size config_gradient
      {| Rect.x := 10 + 0.2; Rect.y := 20 + 0.4; Rect.w := 40; Rect.h := 30 |}.
Proof.
  apply (proj1 (get_rect_pressed_offset config_gradient (fun _ => rect_wide)
                  (pressed_key "DELE"))); reflexivity.
Defined.

(** [rect_tall] at key size 94: both amounts come from the width 30. *)
Lemma key_size_borders_coupling_witness :
  key_size_borders config_gradient rect_tall
  = ((30 * (1.0 - 94.0 / 100.0) / 2.0)%Q, (30 * (1.0 - 94.0 / 100.0) / 2.0)%Q)
  ∧ _apply_key_size config_gradient rect_tall
    = Rect.deflate rect_tall (30 * (1.0 - 94.0 / 100.0) / 2.0)%Q
        (30 * (1.0 - 94.0 / 100.0) / 2.0)%Q.
Proof.
  apply (proj1 (key_size_borders_coupling config_gradient rect_tall)).
  reflexivity.
Defined.

(** [rect_wide] does not grow at key size 94 and is unchanged at 100. *)
Lemma apply_key_size_shrinks_witness :
  ((Rect.w (_apply_key_size config_gradient rect_wide) <= Rect.w rect_wide)%Q
   ∧ (Rect.h (_apply_key_size config_gradient rect_wide) <= Rect.h rect_wide)%Q)
  ∧ Rect.equiv (_apply_key_size config_full rect_wide) rect_wide.
Proof.
  split.
  - destruct (apply_key_size_shrinks config_gradient rect_wide)
      as (Hw & Hh & _);
      [vm_compute; first [reflexivity | discriminate] ..|].
    split; assumption.
  - apply (apply_key_size_shrinks config_full rect_wide);
      vm_compute; first [reflexivity | discriminate].
Defined.

(** ** Colour cache *)

Lemma negb_rgba_truthy_hit (v : rgba_value) :
  rgba_truthy v = true -> negb (rgba_truthy v) = false.
Proof. intros ->. reflexivity. Qed.

(** A hit: the stored value is returned, nothing else happens. *)
Lemma get_color_hit (self : RectKeyCommon) (element : string) :
  rgba_truthy (dict_get (colors self) (make_color_key (key self) element)) = true ->
  _get_color self element
  = (dict_get (colors self) (make_color_key (key self) element), self, []).
Proof.
  intros Hhit. unfold _get_color. rewrite Hhit. reflexivity.
Qed.

(** A miss, case by case. *)
Lemma get_color_miss_cases (self : RectKeyCommon) (element : string) :
  let k := make_color_key (key self) element in
  rgba_truthy (dict_get (colors self) k) = false ->
  match color_scheme self with
  | Some scheme =>
      let rgba := get_key_rgba scheme (key self) element in
      _get_color self element
      = (rgba, store_color self k rgba, [(key self, element)])
  | None =>
      let rgba :=
        if String.eqb element "label"
        then Some [0.0; 0.0; 0.0; 1.0]%Q
        else Some [1.0; 1.0; 1.0; 1.0]%Q in
      _get_color self element = (rgba, store_color self k rgba, [])
  end.
Proof.
  intros k Hmiss. unfold _get_color. fold k. rewrite Hmiss. simpl.
  destruct (color_scheme self) as [scheme|]; [reflexivity|].
  destruct (String.eqb element "label"); reflexivity.
Qed.

Lemma dict_get_insert_eq (cache : gmap color_key rgba_value) (k : color_key)
    (v : rgba_value) :
  dict_get (<[k := v]> cache) k = v.
Proof. unfold dict_get. rewrite lookup_insert_eq. reflexivity. Qed.

Lemma dict_get_insert_ne (cache : gmap color_key rgba_value) (k k' : color_key)
    (v : rgba_value) :
  k ≠ k' -> dict_get (<[k := v]> cache) k' = dict_get cache k'.
Proof. intros Hne. unfold dict_get. rewrite lookup_insert_ne by exact Hne. reflexivity. Qed.

(** After a call the cache holds, under the key of the call, the value that
    the call returned. *)
Lemma get_color_cached (self : RectKeyCommon) (element : string) :
  dict_get (colors (snd (fst (_get_color self element))))
    (make_color_key (key self) element)
  = fst (fst (_get_color self element)).
Proof.
  destruct (rgba_truthy (dict_get (colors self) (make_color_key (key self) element)))
    eqn:Hcache.
  - rewrite (get_color_hit self element Hcache). reflexivity.
  - pose proof (get_color_miss_cases self element Hcache) as Hmiss.
    destruct (color_scheme self); simpl in Hmiss; rewrite Hmiss; simpl;
      apply dict_get_insert_eq.
Qed.

(** A call leaves the entries under the other keys alone. *)
Lemma get_color_other (self : RectKeyCommon) (element : string) (k : color_key) :
  make_color_key (key self) element ≠ k ->
  dict_get (colors (snd (fst (_get_color self element)))) k
  = dict_get (colors self) k.
Proof.
  intros Hne.
  destruct (rgba_truthy (dict_get (colors self) (make_color_key (key self) element)))
    eqn:Hcache.
  - rewrite (get_color_hit self element Hcache). reflexivity.
  - pose proof (get_color_miss_cases self element Hcache) as Hmiss.
    destruct (color_scheme self); simpl in Hmiss; rewrite Hmiss; simpl;
      apply dict_get_insert_ne, Hne.
Qed.

(** A call asks the colour scheme at most once, and then returns its
    answer. *)
Lemma get_color_calls (self : RectKeyCommon) (element : string) :
  snd (_get_color self element) = []
  ∨ ∃ scheme,
      color_scheme self = Some scheme
      ∧ snd (_get_color self element) = [(key self, element)]
      ∧ fst (fst (_get_color self element)) = get_key_rgba scheme (key self) element.
Proof.
  destruct (rgba_truthy (dict_get (colors self) (make_color_key (key self) element)))
    eqn:Hcache.
  - left. rewrite (get_color_hit self element Hcache). reflexivity.
  - pose proof (get_color_miss_cases self element Hcache) as Hmiss.
    destruct (color_scheme self) as [scheme|]; simpl in Hmiss; rewrite Hmiss.
    + right. exists scheme. auto.
    + left. reflexivity.
Qed.

(** Once a key of the cache holds a non-empty colour, every later query
    under that key returns this colour and asks no colour scheme. *)
Lemma run_queries_stable (qs : list query) :
  ∀ (cache : gmap color_key rgba_value) (k : color_key),
    rgba_truthy (dict_get cache k) = true ->
    Forall (fun a => a_color_key a = k ->
                     a_rgba a = dict_get cache k ∧ a_calls a = [])
           (run_queries cache qs).
Proof.
  induction qs as [|q qs IH]; intros cache k Hhit; simpl; constructor.
  - simpl. intros Hk.
    set (self := {| key := q_key q; color_scheme := q_scheme q; colors := cache |}).
    assert (rgba_truthy
              (dict_get (colors self) (make_color_key (key self) (q_element q)))
            = true) as Hself by (simpl; rewrite Hk; exact Hhit).
    rewrite (get_color_hit self (q_element q) Hself). simpl.
    rewrite Hk. auto.
  - set (self := {| key := q_key q; color_scheme := q_scheme q; colors := cache |}).
    assert (dict_get (colors (snd (fst (_get_color self (q_element q))))) k
            = dict_get cache k) as Hkept.
    { destruct (decide (make_color_key (key self) (q_element q) = k)) as [Hk|Hk].
      - assert (rgba_truthy
                  (dict_get (colors self) (make_color_key (key self) (q_element q)))
                = true) as Hself by (rewrite Hk; exact Hhit).
        rewrite (get_color_hit self (q_element q) Hself). reflexivity.
      - apply (get_color_other self (q_element q) k Hk). }
    rewrite <- Hkept. apply IH. rewrite Hkept. exact Hhit.
Qed.

Lemma lookup_count_none (k : color_key) (answers : list answer) :
  Forall (fun a => a_color_key a = k -> a_calls a = []) answers ->
  lookup_count k answers = O.
Proof.
  induction 1 as [|a answers Ha _ IH]; simpl; [reflexivity|].
  rewrite IH. case_decide as Hk; [rewrite (Ha Hk)|]; reflexivity.
Qed.

Lemma schemes_answer_tail (q : query) (qs : list query) :
  schemes_answer (q :: qs) -> schemes_answer qs.
Proof.
  intros Hall q' scheme Hin. apply Hall. apply elem_of_cons. right. exact Hin.
Qed.

(** With colour schemes that answer, [get_key_rgba] is called at most once
    under each key of the cache. *)
Lemma lookup_count_once (qs : list query) :
  ∀ (cache : gmap color_key rgba_value) (k : color_key),
    schemes_answer qs -> (lookup_count k (run_queries cache qs) <= 1)%nat.
Proof.
  induction qs as [|q qs IH]; intros cache k Hall; simpl; [lia|].
  set (self := {| key := q_key q; color_scheme := q_scheme q; colors := cache |}).
  pose proof (IH (colors (snd (fst (_get_color self (q_element q))))) k
                (schemes_answer_tail q qs Hall)) as Hrest.
  case_decide as Hk; [|lia].
  destruct (get_color_calls self (q_element q))
    as [-> | (scheme & Hscheme & Hcalls & Hrgba)]; [simpl; lia|].
  rewrite Hcalls. simpl.
  assert (rgba_truthy (fst (fst (_get_color self (q_element q)))) = true) as Hanswer.
  { rewrite Hrgba. apply Hall; [apply elem_of_cons; left; reflexivity | exact Hscheme]. }
  rewrite <- (get_color_cached self (q_element q)) in Hanswer.
  rewrite (lookup_count_none k); [lia|].
  simpl in Hk. rewrite <- Hk.
  eapply Forall_impl; [exact (run_queries_stable qs _ _ Hanswer)|].
  simpl. intros a Ha Hka. apply Ha, Hka.
Qed.

(** A query that returned a non-empty colour fixes the answer of every
    later query under the same key of the cache. *)
Lemma run_queries_repeat (qs : list query) :
  ∀ (cache : gmap color_key rgba_value) (i j : nat) (a b : answer),
    (i < j)%nat ->
    run_queries cache qs !! i = Some a ->
    run_queries cache qs !! j = Some b ->
    a_color_key a = a_color_key b ->
    rgba_truthy (a_rgba a) = true ->
    a_rgba b = a_rgba a ∧ a_calls b = [].
Proof.
  induction qs as [|q qs IH]; intros cache i j a b Hlt Ha Hb Hkey Htruthy;
    [discriminate Ha|].
  destruct j as [|j]; [lia|]. simpl in Ha, Hb.
  destruct i as [|i].
  - injection Ha as <-. simpl in Hkey, Htruthy.
    set (self := {| key := q_key q; color_scheme := q_scheme q; colors := cache |}) in *.
    pose proof (get_color_cached self (q_element q)) as Hcached. simpl in Hcached.
    rewrite <- Hcached in Htruthy.
    pose proof (run_queries_stable qs _ _ Htruthy) as Hstable.
    rewrite Forall_lookup in Hstable.
    destruct (Hstable j b Hb (eq_sym Hkey)) as [Hrgba Hcalls].
    simpl. rewrite Hrgba, Hcached. auto.
  - eapply IH with (i := i) (j := j);
      [lia | exact Ha | exact Hb | assumption ..].
Qed.

(** C6, as the code has it. On a miss of the cache, a key without colour
    scheme gets a built-in colour, black (0, 0, 0, 1) for the element
    "label" and white (1, 1, 1, 1) for any other, with no call of a
    collaborator; a key with a colour scheme gets whatever [get_key_rgba]
    returns. Either way the value is stored under the key of the cache and
    returned. *)
Theorem get_color_miss (self : RectKeyCommon) (element : string) :
  let k := make_color_key (key self) element in
  rgba_truthy (dict_get (colors self) k) = false ->
  (color_scheme self = None ->
     let rgba :=
       if String.eqb element "label"
       then Some [0.0; 0.0; 0.0; 1.0]%Q
       else Some [1.0; 1.0; 1.0; 1.0]%Q in
     _get_color self element = (rgba, store_color self k rgba, []))
  ∧ (∀ scheme : ColorScheme,
       color_scheme self = Some scheme ->
       let rgba := get_key_rgba scheme (key self) element in
       _get_color self element
       = (rgba, store_color self k rgba, [(key self, element)])).
Proof.
  intros k Hmiss.
  pose proof (get_color_miss_cases self element Hmiss) as Hcases.
  split.
  - intros Hnone. rewrite Hnone in Hcases. exact Hcases.
  - intros scheme Hscheme. rewrite Hscheme in Hcases. exact Hcases.
Qed.

(** The label of a key without colour scheme is black. *)
Lemma get_color_miss_witness :
  _get_color (key_dele None) "label"
  = (Some [0.0; 0.0; 0.0; 1.0]%Q,
     store_color (key_dele None) (make_color_key (plain_key "DELE") "label")
       (Some [0.0; 0.0; 0.0; 1.0]%Q),
     []).
Proof.
  apply (proj1 (get_color_miss (key_dele None) "label" eq_refl)).
  reflexivity.
Defined.

(** C6, as stated, fails with a colour scheme that returns nothing: nothing
    is stored and returned, not the built-in black. *)
Lemma get_color_scheme_without_color :
  rgba_truthy
    (dict_get (colors (key_dele (Some scheme_nothing)))
       (make_color_key (plain_key "DELE") "label")) = false
  ∧ _get_color (key_dele (Some scheme_nothing)) "label"
    = (None,
       store_color (key_dele (Some scheme_nothing))
         (make_color_key (plain_key "DELE") "label") None,
       [(plain_key "DELE", "label")]).
Proof. split; reflexivity. Qed.

(** C7, as the code has it. In a sequence of queries with no clearing of
    the cache, a query that returned a non-empty colour is repeated by
    every later query with the same element and flags, which returns the
    same value without calling the colour scheme, whatever happened to the
    colour scheme in between; and when every colour scheme asked returns a
    non-empty colour, [get_key_rgba] is called at most once under each key
    of the cache. *)
Theorem get_color_cache_determinism (cache : gmap color_key rgba_value)
    (qs : list query) :
  let answers := run_queries cache qs in
  (∀ (i j : nat) (a b : answer),
     (i < j)%nat ->
     answers !! i = Some a -> answers !! j = Some b ->
     a_color_key a = a_color_key b ->
     rgba_truthy (a_rgba a) = true ->
     a_rgba b = a_rgba a ∧ a_calls b = [])
  ∧ (schemes_answer qs -> ∀ k : color_key, (lookup_count k answers <= 1)%nat).
Proof.
  intros answers. split.
  - apply run_queries_repeat.
  - intros Hall k. apply lookup_count_once, Hall.
Qed.

(** Two queries of the fill colour under the red scheme: one call. *)
Lemma get_color_cache_determinism_witness :
  (lookup_count (make_color_key (plain_key "DELE") "fill")
     (run_queries ∅ [query_fill (Some scheme_red); query_fill (Some scheme_red)])
   <= 1)%nat.
Proof.
  apply (proj2 (get_color_cache_determinism ∅
                  [query_fill (Some scheme_red); query_fill (Some scheme_red)])).
  intros q scheme Hin Hscheme.
  apply elem_of_cons in Hin as [-> | Hin];
    [|apply list_elem_of_singleton in Hin as ->];
    injection Hscheme as <-; reflexivity.
Defined.

(** C7, as stated, fails with a colour scheme that returns nothing: the
    second of two equal queries calls it again; and if the colour scheme
    has been replaced in between, the two queries return different
    values. *)
Lemma get_color_lookup_repeated :
  lookup_count (make_color_key (plain_key "DELE") "fill")
    (run_queries ∅
       [query_fill (Some scheme_nothing); query_fill (Some scheme_nothing)])
  = 2%nat
  ∧ a_rgba <$> run_queries ∅
                 [query_fill (Some scheme_nothing); query_fill (Some scheme_red)]
    = [None; Some [1.0; 0.0; 0.0; 1.0]%Q].
Proof. split; vm_compute; reflexivity. Qed.

(** * Further properties *)

(** ** Label resolution *)

Lemma first_present_elem (cands : list (option string)) (s : string) :
  first_present cands = Some s -> Some s ∈ cands.
Proof.
  induction cands as [|[c|] cands IH]; simpl; intros Hfirst.
  - discriminate.
  - injection Hfirst as ->. apply elem_of_cons. left. reflexivity.
  - apply elem_of_cons. right. apply IH, Hfirst.
Qed.

Lemma legacy_slot_stored (M : ModifierDefs) (labels : gmap Z string) (mask : Z)
    (s : string) :
  legacy_slot M labels mask = Some s -> ∃ k : Z, labels !! k = Some s.
Proof.
  unfold legacy_slot. intros Hslot.
  destruct (bit_set mask (SHIFT M)).
  - apply first_present_elem in Hslot.
    destruct (bit_set mask (ALTGR M));
      repeat (apply elem_of_cons in Hslot as [Hslot | Hslot];
              [symmetry in Hslot; eauto; discriminate|]);
      apply elem_of_nil in Hslot; contradiction.
  - destruct (bit_set mask (ALTGR M) && dict_in 128 labels); [eauto|].
    destruct (bit_set mask (CAPS M)); [|discriminate].
    apply first_present_elem in Hslot.
    repeat (apply elem_of_cons in Hslot as [Hslot | Hslot];
            [symmetry in Hslot; eauto|]).
    apply elem_of_nil in Hslot. contradiction.
Qed.

(** The label assigned is a label of the map or the empty string, and on
    the empty map it is the empty string under every mask. *)
Theorem configure_label_from_map (M : ModifierDefs) (labels : gmap Z string)
    (mask : Z) (s : string) :
  (configure_label M labels mask = Ok (Some s) ->
     s = "" ∨ ∃ k : Z, labels !! k = Some s)
  ∧ configure_label M ∅ mask = Ok (Some "").
Proof.
  split.
  - rewrite configure_label_resolve. intros Hlabel.
    injection Hlabel as <-. unfold resolve_label.
    destruct (first_present _) as [l|] eqn:Hfirst; simpl; [right | left; reflexivity].
    apply first_present_elem in Hfirst.
    repeat (apply elem_of_cons in Hfirst as [Hfirst | Hfirst];
            [symmetry in Hfirst; eauto using legacy_slot_stored|]).
    apply elem_of_nil in Hfirst. contradiction.
  - rewrite configure_label_resolve.
    unfold resolve_label, legacy_slot, dict_in. rewrite !lookup_empty.
    destruct (bit_set mask (SHIFT M)), (bit_set mask (ALTGR M)),
      (bit_set mask (CAPS M)); reflexivity.
Qed.

(** The label "e" shown under Shift with AltGr is the one stored at 129. *)
Lemma configure_label_from_map_witness :
  "e" = "" ∨ ∃ k : Z, labels_abcde !! k = Some "e".
Proof.
  apply (proj1 (configure_label_from_map (legacy_bits 147) labels_abcde 129 "e")).
  reflexivity.
Defined.

(** Under a mask without the Shift, AltGr and CapsLock bits the slots 1, 2,
    128 and 129 play no part: the label is the entry at the mask, else the
    entry at the mask restricted to [LABEL_MODIFIERS], else slot 0, else
    empty. In particular mask 0 shows slot 0. *)
Theorem configure_label_plain_mask (M : ModifierDefs) (labels : gmap Z string)
    (mask : Z) :
  (Z.land mask (SHIFT M) = 0 -> Z.land mask (ALTGR M) = 0 ->
   Z.land mask (CAPS M) = 0 ->
   configure_label M labels mask
   = Ok (Some (default ""
                 (first_present
                    [labels !! mask;
                     labels !! Z.land mask (LABEL_MODIFIERS M);
                     labels !! 0]))))
  ∧ configure_label M labels 0 = Ok (Some (default "" (labels !! 0))).
Proof.
  split.
  - intros Hshift Haltgr Hcaps. rewrite configure_label_resolve.
    unfold resolve_label, legacy_slot, bit_set.
    rewrite Hshift, Haltgr, Hcaps. simpl.
    destruct (labels !! mask), (labels !! Z.land mask (LABEL_MODIFIERS M));
      reflexivity.
  - rewrite configure_label_resolve.
    unfold resolve_label, legacy_slot, bit_set. rewrite !Z.land_0_l. simpl.
    destruct (labels !! 0); reflexivity.
Qed.

(** Control alone (bit 4) with the map of the examples: slot 0. *)
Lemma configure_label_plain_mask_witness :
  configure_label (legacy_bits 147) labels_abcde 4
  = Ok (Some (default ""
                (first_present
                   [labels_abcde !! 4; labels_abcde !! Z.land 4 147;
                    labels_abcde !! 0]))).
Proof.
  apply (proj1 (configure_label_plain_mask (legacy_bits 147) labels_abcde 4));
    reflexivity.
Defined.

(** When the Shift, AltGr and CapsLock bits belong to [LABEL_MODIFIERS] and
    the map has no entry at the mask itself, the bits outside
    [LABEL_MODIFIERS] do not change the label. *)
Theorem configure_label_irrelevant_bits (M : ModifierDefs) (labels : gmap Z string)
    (mask : Z) :
  Z.land (LABEL_MODIFIERS M) (SHIFT M) = SHIFT M ->
  Z.land (LABEL_MODIFIERS M) (ALTGR M) = ALTGR M ->
  Z.land (LABEL_MODIFIERS M) (CAPS M) = CAPS M ->
  labels !! mask = None ->
  configure_label M labels mask
  = configure_label M labels (Z.land mask (LABEL_MODIFIERS M)).
Proof.
  intros Hshift Haltgr Hcaps Hexact. rewrite !configure_label_resolve.
  do 2 f_equal. unfold resolve_label, legacy_slot, bit_set.
  rewrite <- !(Z.land_assoc mask), Z.land_diag, Hshift, Haltgr, Hcaps, Hexact.
  simpl. destruct (labels !! Z.land mask (LABEL_MODIFIERS M)); reflexivity.
Qed.

(** Shift with Control (5) shows what Shift alone (1) shows. *)
Lemma configure_label_irrelevant_bits_witness :
  configure_label (legacy_bits 147) labels_abcde 5
  = configure_label (legacy_bits 147) labels_abcde (Z.land 5 147).
Proof.
  apply (configure_label_irrelevant_bits (legacy_bits 147) labels_abcde 5);
    reflexivity.
Defined.

(** Under Shift the AltGr slot 128 is never read as a legacy slot: unless
    128 is the mask itself, the mask restricted to [LABEL_MODIFIERS], it
    makes no difference what the map holds there. *)
Theorem configure_label_shift_ignores_128 (M : ModifierDefs)
    (labels : gmap Z string) (mask : Z) (s : string) :
  Z.land mask (SHIFT M) ≠ 0 ->
  mask ≠ 128 -> Z.land mask (LABEL_MODIFIERS M) ≠ 128 ->
  configure_label M (<[128 := s]> labels) mask = configure_label M labels mask.
Proof.
  intros Hshift Hexact Hmasked. rewrite !configure_label_resolve.
  do 2 f_equal. unfold resolve_label, legacy_slot, bit_set.
  apply Z.eqb_neq in Hshift. rewrite Hshift. simpl.
  rewrite !lookup_insert_ne by congruence. reflexivity.
Qed.

(** Shift with AltGr and Control (133) on a map without slot 129. *)
Lemma configure_label_shift_ignores_128_witness :
  configure_label (legacy_bits 147) (<[128 := "d"]> labels_ac) 133
  = configure_label (legacy_bits 147) labels_ac 133.
Proof.
  apply (configure_label_shift_ignores_128 (legacy_bits 147) labels_ac 133 "d");
    [vm_compute; discriminate | discriminate | vm_compute; discriminate].
Defined.

(** ** Sticky behaviour *)

Lemma sticky_values_lookup (token : string) (v : Z) :
  StickyBehavior.values !! token = Some v <->
  (token = "cycle" ∧ v = 0) ∨ (token = "dblclick" ∧ v = 1)
  ∨ (token = "latch" ∧ v = 2) ∨ (token = "lock" ∧ v = 3).
Proof.
  unfold StickyBehavior.values, StickyBehavior.CYCLE,
    StickyBehavior.DOUBLE_CLICK, StickyBehavior.LATCH_ONLY,
    StickyBehavior.LOCK_ONLY.
  rewrite !lookup_insert_Some, lookup_empty. split.
  - intros [[<- <-] | [_ [[<- <-] | [_ [[<- <-] | [_ [[<- <-] | [_ Hnone]]]]]]]];
      auto; discriminate.
  - intros [[-> ->] | [[-> ->] | [[-> ->] | [-> ->]]]].
    + left. auto.
    + right. split; [discriminate|]. left. auto.
    + right. split; [discriminate|]. right. split; [discriminate|]. left. auto.
    + right. split; [discriminate|]. right. split; [discriminate|].
      right. split; [discriminate|]. left. auto.
Qed.

Lemma from_string_lookup (token : string) (v : Z) :
  StickyBehavior.from_string token = Ok v <-> StickyBehavior.values !! token = Some v.
Proof.
  unfold StickyBehavior.from_string, dict_item.
  destruct (StickyBehavior.values !! token); split; congruence.
Qed.

(** [is_valid] accepts exactly what [from_string] can return, and these are
    the integers 0 to 3. *)
Theorem is_valid_from_string (v : Z) :
  (StickyBehavior.is_valid v = true <->
   ∃ token : string, StickyBehavior.from_string token = Ok v)
  ∧ (StickyBehavior.is_valid v = true <-> 0 <= v <= 3).
Proof.
  assert (StickyBehavior.is_valid v = true <->
          ∃ token : string, StickyBehavior.values !! token = Some v) as Hvalid.
  { unfold StickyBehavior.is_valid. rewrite bool_decide_eq_true, list_elem_of_fmap.
    split.
    - intros [[token v'] [-> Hin]]. exists token.
      apply elem_of_map_to_list in Hin. exact Hin.
    - intros [token Hlookup]. exists (token, v). split; [reflexivity|].
      apply elem_of_map_to_list. exact Hlookup. }
  split.
  - rewrite Hvalid. split; intros [token Htoken]; exists token;
      apply from_string_lookup; exact Htoken.
  - rewrite Hvalid. split.
    + intros [token Htoken]. apply sticky_values_lookup in Htoken. lia.
    + intros Hrange.
      assert (v = 0 ∨ v = 1 ∨ v = 2 ∨ v = 3) as [-> | [-> | [-> | ->]]] by lia.
      * exists "cycle". reflexivity.
      * exists "dblclick". reflexivity.
      * exists "latch". reflexivity.
      * exists "lock". reflexivity.
Qed.

(** Two tokens that [from_string] maps to the same member are the same
    token. *)
Theorem from_string_injective (token1 token2 : string) (v : Z) :
  StickyBehavior.from_string token1 = Ok v ->
  StickyBehavior.from_string token2 = Ok v ->
  token1 = token2.
Proof.
  rewrite !from_string_lookup, !sticky_values_lookup.
  intros [[-> ->] | [[-> ->] | [[-> ->] | [-> ->]]]]
         [[-> Hv] | [[-> Hv] | [[-> Hv] | [-> Hv]]]];
    first [reflexivity | discriminate Hv].
Qed.

Lemma from_string_injective_witness : "latch" = "latch".
Proof.
  apply (from_string_injective "latch" "latch" 2); reflexivity.
Defined.

(** ** Identity, theme id and layer index *)

Lemma str_split_app (sep : ascii) (s rest : string) :
  str_contains sep s = false ->
  str_split sep s = [s]
  ∧ str_split sep (s ++ String sep rest) = s :: str_split sep rest.
Proof.
  induction s as [|c s IH]; simpl.
  - intros _. rewrite Ascii.eqb_refl. auto.
  - intros Hnone. apply orb_false_iff in Hnone as [Hc Hs].
    destruct (IH Hs) as [Hone Happ]. rewrite Hc, Hone, Happ. auto.
Qed.

(** A theme id made of an id without '.', a '.' and any tweak is split back
    into this id; an id without '.' is its own theme id. *)
Theorem split_id_compose (ident rest : string) :
  str_contains "." ident = false ->
  split_id (ident ++ String "." rest) = Ok (ident ++ String "." rest, ident)
  ∧ split_id ident = Ok (ident, ident).
Proof.
  intros Hnone. destruct (str_split_app "." ident rest Hnone) as [Hone Happ].
  unfold split_id. rewrite Hone, Happ. split; reflexivity.
Qed.

Lemma split_id_compose_witness :
  split_id "DELE.next-to-backspace" = Ok ("DELE.next-to-backspace", "DELE")
  ∧ split_id "DELE" = Ok ("DELE", "DELE").
Proof.
  apply (split_id_compose "DELE" "next-to-backspace"). reflexivity.
Defined.

(** [set_id] touches the two ids only: the flags, [is_pressed_only] and the
    keys of the colour cache stay as they are; and assigning the stored id
    again keeps the id and makes it the theme id. *)
Theorem set_id_frame (self : KeyCommon) (value : string) :
  ∃ self' self'' : KeyCommon,
    set_id self value = Ok self'
    ∧ is_pressed_only self' = is_pressed_only self
    ∧ (∀ element : string,
         make_color_key self' element = make_color_key self element)
    ∧ set_id self' (id self') = Ok self''
    ∧ id self'' = id self'
    ∧ theme_id self'' = Some (id self').
Proof.
  destruct (str_split_head "." value) as (piece & pieces & Hsplit & Hnone & _).
  destruct (split_id_compose piece "" Hnone) as [_ Hagain].
  unfold set_id at 1. unfold split_id, list_item. rewrite Hsplit. simpl.
  eexists. eexists. split; [reflexivity|].
  split; [reflexivity|]. split; [reflexivity|].
  unfold set_id. simpl. rewrite Hagain. simpl. auto.
Qed.

Lemma is_digit_not_dot (c : ascii) : is_digit c = true -> Ascii.eqb c "." = false.
Proof.
  intros Hd.
  destruct (Ascii.eqb_spec c ".") as [->|]; [discriminate Hd | reflexivity].
Qed.

Lemma all_digits_no_dot (digits : string) :
  all_digits digits = true -> str_contains "." digits = false.
Proof.
  induction digits as [|c digits IH]; simpl; [reflexivity|].
  intros Hall. apply andb_true_iff in Hall as [Hd Hall].
  rewrite (is_digit_not_dot c Hd), (IH Hall). reflexivity.
Qed.

(** A layer button keeps its index under a theme tweak: after [set_id] of
    "layer", digits within the interpreter's limit, a '.' and any tweak,
    [get_layer_index] returns the value of the digits. *)
Theorem set_id_layer_index (py : Interpreter) (self : KeyCommon)
    (digits rest : string) :
  digits ≠ EmptyString -> all_digits digits = true ->
  exceeds_max_str_digits (int_max_str_digits py) (String.length digits) = false ->
  ∃ self' : KeyCommon,
    set_id self ("layer" ++ digits ++ String "." rest) = Ok self'
    ∧ id self' = "layer" ++ digits
    ∧ get_layer_index py self' = Ok (digits_value digits 0).
Proof.
  intros Hne Hall Hlimit.
  assert (str_contains "." ("layer" ++ digits) = false) as Hnone
    by (rewrite str_contains_app, (all_digits_no_dot digits Hall); reflexivity).
  destruct (split_id_compose ("layer" ++ digits) rest Hnone) as [Hsplit _].
  unfold set_id.
  change ("layer" ++ digits ++ String "." rest)
    with (("layer" ++ digits) ++ String "." rest).
  rewrite Hsplit. simpl. eexists. split; [reflexivity|]. simpl.
  split; [reflexivity|].
  unfold get_layer_index, is_layer_button. simpl.
  apply py_int_digits; assumption.
Qed.

Lemma set_id_layer_index_witness :
  ∃ self' : KeyCommon,
    set_id (plain_key "") ("layer" ++ "2" ++ String "." "left") = Ok self'
    ∧ id self' = "layer" ++ "2"
    ∧ get_layer_index cpython_3_11 self' = Ok (digits_value "2" 0).
Proof.
  apply (set_id_layer_index cpython_3_11 (plain_key "") "2" "left");
    [discriminate | reflexivity | reflexivity].
Defined.

Lemma digits_value_uint (d : Decimal.uint) (a : nat) :
  digits_value (NilEmpty.string_of_uint d) (Z.of_nat a)
  = Z.of_nat (Nat.of_uint_acc d a).
Proof.
  revert a. induction d as [|d IH|d IH|d IH|d IH|d IH|d IH|d IH|d IH|d IH|d IH];
    intros a; cbn [NilEmpty.string_of_uint digits_value Nat.of_uint_acc];
    [reflexivity|..];
    rewrite <- IH; f_equal; rewrite Nat.tail_mul_spec;
    match goal with
    | |- context [digit_value ?c] =>
        let v := eval vm_compute in (digit_value c) in
        change (digit_value c) with v
    end; lia.
Qed.

Lemma all_digits_uint (d : Decimal.uint) :
  all_digits (NilEmpty.string_of_uint d) = true.
Proof. induction d; simpl; auto. Qed.

Lemma to_uint_nonempty (n : nat) :
  NilEmpty.string_of_uint (Nat.to_uint n) ≠ EmptyString.
Proof.
  rewrite <- (DecimalNat.Unsigned.of_to n) at 1.
  rewrite DecimalNat.Unsigned.to_of. unfold Decimal.unorm.
  destruct (Decimal.nzhead (Nat.to_uint n)); discriminate.
Qed.

(** The id of the button of layer [n], "layer" followed by [n] in decimal,
    is read back as [n] when [n] has no more digits than the interpreter's
    limit allows. *)
Theorem layer_id_index (py : Interpreter) (self : KeyCommon) (n : nat) :
  id self = layer_id n ->
  exceeds_max_str_digits (int_max_str_digits py)
    (String.length (NilEmpty.string_of_uint (Nat.to_uint n))) = false ->
  is_layer_button self = true ∧ get_layer_index py self = Ok (Z.of_nat n).
Proof.
  intros Hid Hlimit.
  destruct (get_layer_index_layer py self _ Hid) as [Hlayer ->].
  split; [exact Hlayer|].
  rewrite py_int_digits
    by (apply to_uint_nonempty || apply all_digits_uint || exact Hlimit).
  f_equal. change 0 with (Z.of_nat 0). rewrite digits_value_uint.
  f_equal. apply DecimalNat.Unsigned.of_to.
Qed.

Lemma layer_id_index_witness :
  is_layer_button (plain_key "layer407") = true
  ∧ get_layer_index cpython_3_11 (plain_key "layer407") = Ok (Z.of_nat 407).
Proof.
  apply (layer_id_index cpython_3_11 (plain_key "layer407") 407); reflexivity.
Defined.

Lemma int_digits_start (digits : string) :
  digits ≠ EmptyString -> all_digits digits = true ->
  int_digits digits 0 false = Some (digits_value digits 0).
Proof.
  intros Hne Hall. destruct digits as [|c ds]; [congruence|].
  simpl in *. apply andb_true_iff in Hall as [Hd Hds].
  rewrite Hd. apply int_digits_all_digits, Hds.
Qed.

(** [get_layer_index] takes a sign: "layer-" followed by digits within the
    interpreter's limit gives the negative of their value, "layer+"
    followed by such digits their value. *)
Theorem get_layer_index_signed (py : Interpreter) (self : KeyCommon)
    (digits : string) :
  digits ≠ EmptyString -> all_digits digits = true ->
  exceeds_max_str_digits (int_max_str_digits py) (String.length digits) = false ->
  (id self = "layer" ++ String "-" digits ->
     get_layer_index py self = Ok (- digits_value digits 0))
  ∧ (id self = "layer" ++ String "+" digits ->
       get_layer_index py self = Ok (digits_value digits 0)).
Proof.
  intros Hne Hall Hlimit.
  assert (∀ c : ascii, is_space c = false ->
            rstrip (lstrip (String c digits)) = String c digits) as Hstrip.
  { intros c Hc. simpl lstrip. rewrite Hc. simpl.
    rewrite (rstrip_digits digits Hall).
    destruct digits; [congruence | reflexivity]. }
  pose proof (all_digits_ascii digits Hall) as Hascii.
  pose proof (count_digits_all_digits digits Hall) as Hcount.
  split; intros Hid;
    destruct (get_layer_index_layer py self _ Hid) as [_ ->];
    rewrite py_int_ascii by (simpl; exact Hascii);
    unfold long_from_string; rewrite Hstrip by reflexivity; simpl;
    rewrite (int_digits_start digits Hne Hall), Hcount, Hlimit; reflexivity.
Qed.

Lemma get_layer_index_signed_witness :
  get_layer_index cpython_3_11 (plain_key "layer-3") = Ok (- digits_value "3" 0).
Proof.
  apply (proj1 (get_layer_index_signed cpython_3_11 (plain_key "layer-3") "3"
                  ltac:(discriminate) eq_refl eq_refl)).
  reflexivity.
Defined.

Lemma str_forall_drop (p : ascii -> bool) (n : nat) (s : string) :
  str_forall p s = true -> str_forall p (str_drop n s) = true.
Proof.
  revert s. induction n as [|n IH]; intros s; [auto|].
  destruct s as [|c s]; simpl; [auto|].
  intros H. apply andb_true_iff in H as [_ H]. apply IH, H.
Qed.

(** What the table of decimal digits is for. An id of code points below
    128 has the same layer index under every table. The table decides
    about other ids: on CPython 3.11 "layer" followed by the Arabic-Indic
    digit three has the index 3 and "layer" followed by the full-width
    digits one and two the index 12, where an interpreter without these
    digits raises [ValueError]. A no-break space before the digits is
    stripped; the separator 28 is not. *)
Theorem get_layer_index_unicode :
  (∀ (py py' : Interpreter) (self : KeyCommon),
     str_forall is_ascii (id self) = true ->
     int_max_str_digits py = int_max_str_digits py' ->
     get_layer_index py self = get_layer_index py' self)
  ∧ get_layer_index cpython_3_11 (plain_key "layer٣") = Ok 3
  ∧ get_layer_index cpython_3_11 (plain_key "layer１２") = Ok 12
  ∧ get_layer_index ascii_digits_only (plain_key "layer٣") = Raise ValueError
  ∧ get_layer_index cpython_3_11
      (plain_key ("layer" ++ String (chr 194) (String (chr 160) "7"))) = Ok 7
  ∧ get_layer_index cpython_3_11
      (plain_key ("layer" ++ String (chr 28) "5")) = Raise ValueError.
Proof.
  refine (conj _ (conj _ (conj _ (conj _ (conj _ _)))));
    [|vm_compute; reflexivity ..].
  intros py py' self Hascii Hlimit. unfold get_layer_index.
  destruct (is_layer_button self); [|reflexivity].
  change (py_int py (str_drop 5 (id self)) = py_int py' (str_drop 5 (id self))).
  rewrite !py_int_ascii by (apply str_forall_drop, Hascii).
  rewrite Hlimit. reflexivity.
Qed.

Lemma get_layer_index_unicode_witness :
  get_layer_index cpython_3_11 (plain_key "layer12")
  = get_layer_index ascii_digits_only (plain_key "layer12").
Proof.
  apply (proj1 get_layer_index_unicode); reflexivity.
Defined.

(** ** Label alignment *)

Section AlignFacts.

Local Open Scope Q_scope.

(** With alignments between 0 and 1, a label that fits the key gets an
    offset between 0 and the space that is left, key size minus label
    size, on both axes; a label that does not fit gets an offset that is
    not positive. *)
Theorem align_label_inside (self : LabelAlign) (label_size key_size : Q * Q) :
  0 <= label_x_align self <= 1 -> 0 <= label_y_align self <= 1 ->
  let offset := align_label self label_size key_size in
  (fst label_size <= fst key_size ->
     0 <= fst offset ∧ fst offset <= fst key_size - fst label_size)
  ∧ (snd label_size <= snd key_size ->
       0 <= snd offset ∧ snd offset <= snd key_size - snd label_size)
  ∧ (fst key_size <= fst label_size -> fst offset <= 0)
  ∧ (snd key_size <= snd label_size -> snd offset <= 0).
Proof.
  intros [Hx0 Hx1] [Hy0 Hy1]. unfold align_label. simpl.
  destruct label_size as [lw lh], key_size as [kw kh]. simpl.
  split; [|split; [|split]]; intros Hfit.
  - assert (0 <= kw - lw) as Hslack by lra.
    pose proof (Qmult_le_0_compat _ _ Hx0 Hslack).
    pose proof (Qmult_fraction_le _ _ Hslack Hx1) as Hle.
    rewrite Qmult_comm in Hle. split; assumption.
  - assert (0 <= kh - lh) as Hslack by lra.
    pose proof (Qmult_le_0_compat _ _ Hy0 Hslack).
    pose proof (Qmult_fraction_le _ _ Hslack Hy1) as Hle.
    rewrite Qmult_comm in Hle. split; assumption.
  - assert (0 <= lw - kw) as Hover by lra.
    pose proof (Qmult_le_0_compat _ _ Hx0 Hover). lra.
  - assert (0 <= lh - kh) as Hover by lra.
    pose proof (Qmult_le_0_compat _ _ Hy0 Hover). lra.
Qed.

(** A label of 26.2 by 4 aligned at the far end of a key of 61.9 by 30. *)
Lemma align_label_inside_witness :
  let offset := align_label {| label_x_align := 1.0; label_y_align := 0.5 |}
                  (26.2, 4) (61.9, 30) in
  (fst (26.2, 4) <= fst (61.9, 30) ->
     0 <= fst offset ∧ fst offset <= fst (61.9, 30) - fst (26.2, 4))
  ∧ (snd (26.2, 4) <= snd (61.9, 30) ->
       0 <= snd offset ∧ snd offset <= snd (61.9, 30) - snd (26.2, 4))
  ∧ (fst (61.9, 30) <= fst (26.2, 4) -> fst offset <= 0)
  ∧ (snd (61.9, 30) <= snd (26.2, 4) -> snd offset <= 0).
Proof.
  apply (align_label_inside {| label_x_align := 1.0; label_y_align := 0.5 |}
           (26.2, 4) (61.9, 30));
    split; vm_compute; discriminate.
Defined.

(** For a label that fits the key, a larger alignment gives an offset that
    is not smaller, on both axes; the alignment 0 gives the offset 0 and
    the alignment 1 the whole space that is left. *)
Theorem align_label_monotone (self self' : LabelAlign)
    (label_size key_size : Q * Q) :
  let offset := align_label self label_size key_size in
  let offset' := align_label self' label_size key_size in
  (label_x_align self <= label_x_align self' ->
   fst label_size <= fst key_size -> fst offset <= fst offset')
  ∧ (label_y_align self <= label_y_align self' ->
     snd label_size <= snd key_size -> snd offset <= snd offset')
  ∧ (label_x_align self == 0 -> fst offset == 0)
  ∧ (label_y_align self == 0 -> snd offset == 0)
  ∧ (label_x_align self == 1 -> fst offset == fst key_size - fst label_size)
  ∧ (label_y_align self == 1 -> snd offset == snd key_size - snd label_size).
Proof.
  unfold align_label. simpl.
  refine (conj _ (conj _ (conj _ (conj _ (conj _ _))))).
  - intros Hle Hfit. apply Qmult_le_compat_r; [exact Hle | lra].
  - intros Hle Hfit. apply Qmult_le_compat_r; [exact Hle | lra].
  - intros Hzero. rewrite Hzero. ring.
  - intros Hzero. rewrite Hzero. ring.
  - intros Hone. rewrite Hone. ring.
  - intros Hone. rewrite Hone. ring.
Qed.

(** A label of 16.8 by 4 in a key of 52.9 by 30, aligned at 0.17 and at
    0.83 of the width. *)
Lemma align_label_monotone_witness :
  fst (align_label {| label_x_align := 0.17; label_y_align := 0.5 |}
         (16.8, 4) (52.9, 30))
  <= fst (align_label {| label_x_align := 0.83; label_y_align := 0.5 |}
            (16.8, 4) (52.9, 30)).
Proof.
  apply (proj1 (align_label_monotone
                  {| label_x_align := 0.17; label_y_align := 0.5 |}
                  {| label_x_align := 0.83; label_y_align := 0.5 |}
                  (16.8, 4) (52.9, 30)));
    vm_compute; discriminate.
Defined.

End AlignFacts.

(** ** Shrinking to key size, pressing, label rectangle *)

Section ShrinkFacts.

Local Open Scope Q_scope.

Variable config : Config.
Variable constants : ConfigConstants.
Variable LayoutItem_get_rect : KeyCommon -> Rect.t.

(** The two amounts handed to [deflate] are always equal as numbers. *)
Lemma key_size_borders_equal (rect : Rect.t) :
  fst (key_size_borders config rect) == snd (key_size_borders config rect).
Proof.
  destruct (key_size_borders_cases config rect) as (Htall & Hwide & Hsquare).
  destruct (Q_dec (Rect.w rect) (Rect.h rect)) as [[Hlt | Hgt] | Heq].
  - rewrite (Htall Hlt). reflexivity.
  - rewrite (Hwide Hgt). reflexivity.
  - rewrite (Hsquare Heq). simpl. rewrite Heq. reflexivity.
Qed.

(** For a rectangle of non-negative width and height and a key size in
    (0, 100], [_apply_key_size] moves the origin inward, right and down or
    not at all; width and height do not become negative; and the smaller
    of the two stays the smaller one. *)
Theorem apply_key_size_inward (rect : Rect.t) :
  0 <= Rect.w rect -> 0 <= Rect.h rect ->
  0 < key_size (theme_settings config) ->
  key_size (theme_settings config) <= 100 ->
  let shrunk := _apply_key_size config rect in
  Rect.x rect <= Rect.x shrunk ∧ Rect.y rect <= Rect.y shrunk
  ∧ 0 <= Rect.w shrunk ∧ 0 <= Rect.h shrunk
  ∧ (Rect.w rect <= Rect.h rect -> Rect.w shrunk <= Rect.h shrunk)
  ∧ (Rect.h rect <= Rect.w rect -> Rect.h shrunk <= Rect.w shrunk).
Proof.
  intros Hw Hh Hpos Hmax shrunk.
  destruct (apply_key_size_unclamped config rect Hw Hh Hpos Hmax) as [Hw' Hh'].
  destruct (key_size_borders_bounds config rect Hw Hh Hpos Hmax)
    as (Hbx0 & Hby0 & Hbx & Hby).
  pose proof (key_size_borders_equal rect) as Hequal.
  fold shrunk in Hw', Hh'.
  assert (Rect.x shrunk = Rect.x rect + fst (key_size_borders config rect))
    as Hx' by reflexivity.
  assert (Rect.y shrunk = Rect.y rect + snd (key_size_borders config rect))
    as Hy' by reflexivity.
  rewrite Hw', Hh', Hx', Hy'. clear Hw' Hh' Hx' Hy' shrunk.
  destruct (key_size_borders config rect) as [bx by_]. simpl in *.
  refine (conj _ (conj _ (conj _ (conj _ (conj _ _))))); [lra ..| |];
    intros Hle; lra.
Qed.

End ShrinkFacts.

Section PressFacts.

Local Open Scope Q_scope.

Variable config : Config.
Variable constants : ConfigConstants.
Variable LayoutItem_get_rect : KeyCommon -> Rect.t.

(** Shrinking to key size after a move right and down: the size is the
    same rectangle's size, the origin is not smaller. *)
Lemma apply_key_size_moved (rect : Rect.t) (dx dy : Q) :
  0 <= dx -> 0 <= dy ->
  let shrunk := _apply_key_size config rect in
  let shrunk' := _apply_key_size config (moved rect dx dy) in
  Rect.w shrunk' = Rect.w shrunk ∧ Rect.h shrunk' = Rect.h shrunk
  ∧ Rect.x shrunk <= Rect.x shrunk' ∧ Rect.y shrunk <= Rect.y shrunk'.
Proof.
  intros Hdx Hdy. unfold _apply_key_size, Rect.deflate, moved. simpl.
  repeat split; lra.
Qed.

(** The same for the rectangle of a pressed key and its unpressed one. *)
Lemma get_rect_pressed_relation (self : KeyCommon) :
  pressed self = true ->
  let rect := get_rect config LayoutItem_get_rect self in
  let unpressed := get_unpressed_rect config LayoutItem_get_rect self in
  Rect.w rect = Rect.w unpressed ∧ Rect.h rect = Rect.h unpressed
  ∧ Rect.x unpressed <= Rect.x rect ∧ Rect.y unpressed <= Rect.y rect.
Proof.
  intros Hpressed. unfold get_rect, get_unpressed_rect. rewrite Hpressed.
  destruct (String.eqb (key_style (theme_settings config)) "gradient");
    [|destruct (String.eqb (key_style (theme_settings config)) "dish")].
  - apply (apply_key_size_moved (get_fullsize_rect LayoutItem_get_rect self)
             0.2 (2 * 0.2)); lra.
  - apply (apply_key_size_moved (get_fullsize_rect LayoutItem_get_rect self)
             0.45 (2 * 0.45)); lra.
  - repeat split; apply Qle_refl.
Qed.

(** The label rectangle of two rectangles of one size, the origin of the
    second not smaller: again one size, and the origin not smaller. *)
Lemma get_label_rect_relation (self : KeyCommon) (rect rect' : Rect.t) :
  Rect.w rect' = Rect.w rect -> Rect.h rect' = Rect.h rect ->
  Rect.x rect <= Rect.x rect' -> Rect.y rect <= Rect.y rect' ->
  let label_rect := get_label_rect config constants LayoutItem_get_rect self in
  Rect.w (label_rect (Some rect')) = Rect.w (label_rect (Some rect))
  ∧ Rect.h (label_rect (Some rect')) = Rect.h (label_rect (Some rect))
  ∧ Rect.x (label_rect (Some rect)) <= Rect.x (label_rect (Some rect'))
  ∧ Rect.y (label_rect (Some rect)) <= Rect.y (label_rect (Some rect')).
Proof.
  intros Hw Hh Hx Hy. unfold get_label_rect.
  destruct (String.eqb (key_style (theme_settings config)) "dish");
    unfold sub_y, Rect.deflate; simpl; rewrite Hw, Hh;
    repeat split; lra.
Qed.

(** Pressing a key moves its rectangle and does not resize it: in every
    style and whether the key is pressed or not, its rectangle has the
    width and the height of its unpressed rectangle, and an origin that is
    not smaller on either axis; the two are the same rectangle when the
    key is not pressed. *)
Theorem get_rect_pressed_moved (self : KeyCommon) :
  let rect := get_rect config LayoutItem_get_rect self in
  let unpressed := get_unpressed_rect config LayoutItem_get_rect self in
  Rect.w rect = Rect.w unpressed ∧ Rect.h rect = Rect.h unpressed
  ∧ Rect.x unpressed <= Rect.x rect ∧ Rect.y unpressed <= Rect.y rect
  ∧ (pressed self = false -> rect = unpressed).
Proof.
  intros rect unpressed. destruct (pressed self) eqn:Hpressed.
  - destruct (get_rect_pressed_relation self Hpressed) as (Hw & Hh & Hx & Hy).
    repeat split; [exact Hw | exact Hh | exact Hx | exact Hy | discriminate].
  - assert (rect = unpressed) as ->
      by (unfold rect, unpressed, get_rect, get_unpressed_rect;
          rewrite Hpressed; reflexivity).
    repeat split; apply Qle_refl.
Qed.

(** The label rectangle follows: it is taken from [get_rect] when none is
    given, so for a pressed key it has the size of the label rectangle of
    the unpressed rectangle and an origin that is not smaller; for a key
    that is not pressed it is the label rectangle of the unpressed
    rectangle. *)
Theorem get_label_rect_pressed_moved (self : KeyCommon) :
  let unpressed := get_unpressed_rect config LayoutItem_get_rect self in
  let label_rect := get_label_rect config constants LayoutItem_get_rect self in
  (pressed self = true ->
     Rect.w (label_rect None) = Rect.w (label_rect (Some unpressed))
     ∧ Rect.h (label_rect None) = Rect.h (label_rect (Some unpressed))
     ∧ Rect.x (label_rect (Some unpressed)) <= Rect.x (label_rect None)
     ∧ Rect.y (label_rect (Some unpressed)) <= Rect.y (label_rect None))
  ∧ (pressed self = false -> label_rect None = label_rect (Some unpressed)).
Proof.
  intros unpressed label_rect. split.
  - intros Hpressed.
    destruct (get_rect_pressed_relation self Hpressed) as (Hw & Hh & Hx & Hy).
    exact (get_label_rect_relation self unpressed
             (get_rect config LayoutItem_get_rect self) Hw Hh Hx Hy).
  - intros Hreleased. unfold label_rect, unpressed, get_label_rect, get_rect,
      get_unpressed_rect. rewrite Hreleased. reflexivity.
Qed.

End PressFacts.

(** [rect_wide] at key size 94. *)
Lemma apply_key_size_inward_witness :
  let shrunk := _apply_key_size config_gradient rect_wide in
  (Rect.x rect_wide <= Rect.x shrunk)%Q ∧ (Rect.y rect_wide <= Rect.y shrunk)%Q
  ∧ (0 <= Rect.w shrunk)%Q ∧ (0 <= Rect.h shrunk)%Q
  ∧ ((Rect.w rect_wide <= Rect.h rect_wide)%Q ->
       (Rect.w shrunk <= Rect.h shrunk)%Q)
  ∧ ((Rect.h rect_wide <= Rect.w rect_wide)%Q ->
       (Rect.h shrunk <= Rect.w shrunk)%Q).
Proof.
  apply (apply_key_size_inward config_gradient rect_wide);
    vm_compute; first [reflexivity | discriminate].
Defined.

(** The pressed key "DELE" of full size [rect_wide] in the gradient style. *)
Lemma get_rect_pressed_moved_witness :
  let rect := get_rect config_gradient (fun _ => rect_wide) (pressed_key "DELE") in
  let unpressed :=
    get_unpressed_rect config_gradient (fun _ => rect_wide) (pressed_key "DELE") in
  Rect.w rect = Rect.w unpressed ∧ Rect.h rect = Rect.h unpressed
  ∧ (Rect.x unpressed <= Rect.x rect)%Q ∧ (Rect.y unpressed <= Rect.y rect)%Q
  ∧ (pressed (pressed_key "DELE") = false -> rect = unpressed).
Proof.
  exact (get_rect_pressed_moved config_gradient (fun _ => rect_wide)
           (pressed_key "DELE")).
Defined.

Lemma get_label_rect_pressed_moved_witness :
  let unpressed :=
    get_unpressed_rect config_gradient (fun _ => rect_wide) (pressed_key "DELE") in
  let label_rect :=
    get_label_rect config_gradient constants_sample (fun _ => rect_wide)
      (pressed_key "DELE") in
  Rect.w (label_rect None) = Rect.w (label_rect (Some unpressed))
  ∧ Rect.h (label_rect None) = Rect.h (label_rect (Some unpressed))
  ∧ (Rect.x (label_rect (Some unpressed)) <= Rect.x (label_rect None))%Q
  ∧ (Rect.y (label_rect (Some unpressed)) <= Rect.y (label_rect None))%Q.
Proof.
  apply (proj1 (get_label_rect_pressed_moved config_gradient constants_sample
                  (fun _ => rect_wide) (pressed_key "DELE"))).
  reflexivity.
Defined.

(** ** Colour cache over time *)

Lemma dict_get_truthy (cache : gmap color_key rgba_value) (k : color_key) :
  rgba_truthy (dict_get cache k) = true -> cache !! k = Some (dict_get cache k).
Proof.
  unfold dict_get, rgba_value in *. intros Htruthy.
  destruct (cache !! k) as [v|]; [reflexivity | discriminate].
Qed.

(** What a call does to the key: a hit changes nothing, a miss writes the
    value it returns under the key of the call. *)
Lemma get_color_shape (self : RectKeyCommon) (element : string) :
  let k := make_color_key (key self) element in
  let out := _get_color self element in
  (rgba_truthy (dict_get (colors self) k) = true ∧ snd (fst out) = self)
  ∨ (rgba_truthy (dict_get (colors self) k) = false
     ∧ snd (fst out) = store_color self k (fst (fst out))).
Proof.
  intros k out. unfold out.
  destruct (rgba_truthy (dict_get (colors self) k)) eqn:Hcache.
  - left. rewrite (get_color_hit self element Hcache). auto.
  - right. pose proof (get_color_miss_cases self element Hcache) as Hmiss.
    destruct (color_scheme self); simpl in Hmiss; rewrite Hmiss; auto.
Qed.

(** A call of [_get_color] changes neither the attributes of the key nor
    its colour scheme nor any entry of the cache under another key; under
    its own key the cache holds an entry afterwards, and an entry that held
    a non-empty colour is not overwritten. *)
Theorem get_color_frame (self : RectKeyCommon) (element : string) :
  let k := make_color_key (key self) element in
  let self' := snd (fst (_get_color self element)) in
  key self' = key self
  ∧ color_scheme self' = color_scheme self
  ∧ (∀ k' : color_key, k' ≠ k -> colors self' !! k' = colors self !! k')
  ∧ is_Some (colors self' !! k)
  ∧ (∀ v : rgba_value,
       colors self !! k = Some v -> rgba_truthy v = true -> self' = self).
Proof.
  intros k self'. unfold self', k. clear self' k.
  destruct (get_color_shape self element) as [[Hhit ->] | [Hmiss ->]].
  - repeat split; auto.
    eexists. apply dict_get_truthy, Hhit.
  - simpl. repeat split; auto.
    + intros k' Hne. apply lookup_insert_ne. congruence.
    + rewrite lookup_insert_eq. eauto.
    + intros v Hv Htruthy. unfold dict_get, rgba_value in *.
      rewrite Hv in Hmiss. congruence.
Qed.

(** A call for the fill colour leaves a cached label colour alone. *)
Lemma get_color_frame_witness :
  colors (snd (fst (_get_color (key_dele (Some scheme_red)) "fill")))
  !! make_color_key (plain_key "DELE") "label"
  = colors (key_dele (Some scheme_red)) !! make_color_key (plain_key "DELE") "label".
Proof.
  apply (proj1 (proj2 (proj2 (get_color_frame (key_dele (Some scheme_red)) "fill")))).
  discriminate.
Defined.

(** Over any sequence of queries the cache never loses a key: afterwards
    its keys are those it had and those that were asked. *)
Theorem run_cache_keys (cache : gmap color_key rgba_value) (qs : list query)
    (k : color_key) :
  is_Some (run_cache cache qs !! k) <->
  is_Some (cache !! k)
  ∨ ∃ q : query, q ∈ qs ∧ make_color_key (q_key q) (q_element q) = k.
Proof.
  revert cache. induction qs as [|q qs IH]; intros cache; simpl.
  - split; [auto|]. intros [Hin | (q & Hq & _)]; [exact Hin|].
    apply elem_of_nil in Hq. contradiction.
  - set (self := {| key := q_key q; color_scheme := q_scheme q; colors := cache |}).
    destruct (get_color_frame self (q_element q))
      as (_ & _ & Hother & Hown & _). simpl in Hother, Hown.
    rewrite IH. split.
    + intros [Hin | (q' & Hq' & Hk)].
      * destruct (decide (k = make_color_key (q_key q) (q_element q))) as [->|Hne].
        -- right. exists q. split; [apply elem_of_cons; auto | reflexivity].
        -- left. rewrite <- (Hother k Hne). exact Hin.
      * right. exists q'. split; [apply elem_of_cons; auto | exact Hk].
    + intros [Hin | (q' & Hq' & Hk)].
      * destruct (decide (k = make_color_key (q_key q) (q_element q))) as [->|Hne].
        -- left. exact Hown.
        -- left. rewrite (Hother k Hne). exact Hin.
      * apply elem_of_cons in Hq' as [-> | Hq'].
        -- left. rewrite <- Hk. exact Hown.
        -- right. exists q'. auto.
Qed.

(** A non-empty colour in the cache stays there through any sequence of
    queries, whatever the flags and colour schemes become. *)
Theorem run_cache_persist (cache : gmap color_key rgba_value) (qs : list query)
    (k : color_key) (v : rgba_value) :
  cache !! k = Some v -> rgba_truthy v = true ->
  run_cache cache qs !! k = Some v.
Proof.
  revert cache. induction qs as [|q qs IH]; intros cache Hv Htruthy; simpl;
    [exact Hv|].
  apply IH; [|exact Htruthy].
  set (self := {| key := q_key q; color_scheme := q_scheme q; colors := cache |}).
  destruct (get_color_frame self (q_element q))
    as (_ & _ & Hother & _ & Hkeep). simpl in Hother, Hkeep.
  destruct (decide (k = make_color_key (q_key q) (q_element q))) as [->|Hne].
  - rewrite (Hkeep v Hv Htruthy). exact Hv.
  - rewrite (Hother k Hne). exact Hv.
Qed.

Lemma run_cache_persist_witness :
  run_cache (<[make_color_key (plain_key "DELE") "fill" :=
                 Some [1.0; 0.0; 0.0; 1.0]%Q]> ∅)
    [query_fill (Some scheme_nothing); query_fill None]
  !! make_color_key (plain_key "DELE") "fill"
  = Some (Some [1.0; 0.0; 0.0; 1.0]%Q).
Proof.
  apply (run_cache_persist _ _ _ (Some [1.0; 0.0; 0.0; 1.0]%Q));
    [apply lookup_insert_eq | reflexivity].
Defined.

(** A key without colour scheme whose cache holds built-in colours only:
    the call returns the built-in colour of the element, calls nobody and
    leaves such a cache. *)
Lemma get_color_no_scheme (self : RectKeyCommon) (element : string) :
  color_scheme self = None ->
  (∀ k v, colors self !! k = Some v -> v = builtin_color (key_element k)) ->
  fst (fst (_get_color self element)) = builtin_color element
  ∧ snd (_get_color self element) = []
  ∧ (∀ k v, colors (snd (fst (_get_color self element))) !! k = Some v ->
            v = builtin_color (key_element k)).
Proof.
  intros Hnone Hcache.
  destruct (rgba_truthy (dict_get (colors self) (make_color_key (key self) element)))
    eqn:Hentry.
  - rewrite (get_color_hit self element Hentry). simpl.
    split; [|auto]. apply (Hcache _ _ (dict_get_truthy _ _ Hentry)).
  - pose proof (get_color_miss_cases self element Hentry) as Hmiss.
    rewrite Hnone in Hmiss. simpl in Hmiss. rewrite Hmiss. simpl.
    split; [reflexivity|]. split; [reflexivity|].
    intros k v Hv. apply lookup_insert_Some in Hv as [[<- <-] | [_ Hv]].
    + reflexivity.
    + apply (Hcache _ _ Hv).
Qed.

Lemma run_queries_no_scheme (qs : list query) :
  ∀ cache : gmap color_key rgba_value,
    (∀ k v, cache !! k = Some v -> v = builtin_color (key_element k)) ->
    (∀ q : query, q ∈ qs -> q_scheme q = None) ->
    Forall (fun a => a_rgba a = builtin_color (key_element (a_color_key a))
                     ∧ a_calls a = [])
           (run_queries cache qs)
    ∧ (∀ k v, run_cache cache qs !! k = Some v ->
              v = builtin_color (key_element k)).
Proof.
  induction qs as [|q qs IH]; intros cache Hcache Hnone; simpl; [auto|].
  set (self := {| key := q_key q; color_scheme := q_scheme q; colors := cache |}).
  destruct (get_color_no_scheme self (q_element q)) as (Hrgba & Hcalls & Hcache').
  { apply Hnone. apply elem_of_cons. auto. }
  { exact Hcache. }
  destruct (IH _ Hcache') as [Hanswers Hfinal].
  { intros q' Hq'. apply Hnone. apply elem_of_cons. auto. }
  split; [|exact Hfinal].
  constructor; [|exact Hanswers]. simpl. auto.
Qed.

(** A key that never had a colour scheme, starting from an empty cache:
    every query returns the built-in colour of its element and calls no
    collaborator, and afterwards, whatever the flags, the label colour is
    black and the fill, stroke and dwell-progress colours are white. *)
Theorem no_scheme_colors (qs : list query) (attrs : KeyCommon) :
  (∀ q : query, q ∈ qs -> q_scheme q = None) ->
  Forall (fun a => a_rgba a = builtin_color (key_element (a_color_key a))
                   ∧ a_calls a = [])
         (run_queries ∅ qs)
  ∧ (let self := {| key := attrs; color_scheme := None;
                    colors := run_cache ∅ qs |} in
     fst (fst (get_label_color self)) = Some [0.0; 0.0; 0.0; 1.0]%Q
     ∧ fst (fst (get_fill_color self)) = Some [1.0; 1.0; 1.0; 1.0]%Q
     ∧ fst (fst (get_stroke_color self)) = Some [1.0; 1.0; 1.0; 1.0]%Q
     ∧ fst (fst (get_dwell_progress_color self)) = Some [1.0; 1.0; 1.0; 1.0]%Q).
Proof.
  intros Hnone.
  destruct (run_queries_no_scheme qs ∅) as [Hanswers Hfinal];
    [intros k v Hv; rewrite lookup_empty in Hv; discriminate | exact Hnone |].
  split; [exact Hanswers|]. intros self.
  unfold get_label_color, get_fill_color, get_stroke_color,
    get_dwell_progress_color.
  repeat split;
    exact (proj1 (get_color_no_scheme self _ eq_refl Hfinal)).
Qed.

Lemma no_scheme_colors_witness :
  fst (fst (get_label_color
              {| key := pressed_key "DELE"; color_scheme := None;
                 colors := run_cache ∅ [query_fill None; query_fill None] |}))
  = Some [0.0; 0.0; 0.0; 1.0]%Q.
Proof.
  apply (no_scheme_colors [query_fill None; query_fill None] (pressed_key "DELE")).
  intros q Hq.
  apply elem_of_cons in Hq as [-> | Hq];
    [|apply list_elem_of_singleton in Hq as ->]; reflexivity.
Defined.

(** The outcome of a call depends on the cache only through the entry under
    the key of the call. *)
Lemma get_color_local (attrs : KeyCommon) (scheme : option ColorScheme)
    (cache cache' : gmap color_key rgba_value) (element : string) :
  let k := make_color_key attrs element in
  let out := _get_color {| key := attrs; color_scheme := scheme; colors := cache |}
               element in
  let out' := _get_color {| key := attrs; color_scheme := scheme; colors := cache' |}
                element in
  dict_get cache k = dict_get cache' k ->
  fst (fst out) = fst (fst out')
  ∧ snd out = snd out'
  ∧ (colors (snd (fst out)) = cache ∧ colors (snd (fst out')) = cache'
     ∨ colors (snd (fst out)) = <[k := fst (fst out)]> cache
       ∧ colors (snd (fst out')) = <[k := fst (fst out')]> cache').
Proof.
  intros k out out' Hentry. unfold out, out', _get_color. simpl. fold k.
  rewrite Hentry.
  destruct (rgba_truthy (dict_get cache' k)); simpl; [auto|].
  destruct scheme as [scheme|]; [|destruct (String.eqb element "label")];
    simpl; auto.
Qed.

(** Two queries under different keys of the cache commute: in either order
    each gets the same answer and makes the same calls, and the cache ends
    up the same. *)
Theorem run_queries_commute (cache : gmap color_key rgba_value) (q1 q2 : query) :
  make_color_key (q_key q1) (q_element q1) ≠ make_color_key (q_key q2) (q_element q2) ->
  ∃ a1 a2 : answer,
    run_queries cache [q1; q2] = [a1; a2]
    ∧ run_queries cache [q2; q1] = [a2; a1]
    ∧ run_cache cache [q1; q2] = run_cache cache [q2; q1].
Proof.
  intros Hne. simpl.
  set (self1 := {| key := q_key q1; color_scheme := q_scheme q1; colors := cache |}).
  set (self2 := {| key := q_key q2; color_scheme := q_scheme q2; colors := cache |}).
  pose proof (get_color_other self1 (q_element q1) _ Hne) as Hkept2.
  pose proof (get_color_other self2 (q_element q2) _ (not_eq_sym Hne)) as Hkept1.
  simpl in Hkept1, Hkept2.
  set (cache1 := colors (snd (fst (_get_color self1 (q_element q1))))) in *.
  set (cache2 := colors (snd (fst (_get_color self2 (q_element q2))))) in *.
  destruct (get_color_local (q_key q2) (q_scheme q2) cache1 cache (q_element q2) Hkept2)
    as (Hrgba2 & Hcalls2 & Hcache2).
  destruct (get_color_local (q_key q1) (q_scheme q1) cache2 cache (q_element q1) Hkept1)
    as (Hrgba1 & Hcalls1 & Hcache1).
  fold self1 in Hrgba1, Hcalls1, Hcache1. fold self2 in Hrgba2, Hcalls2, Hcache2.
  fold cache1 in Hcache1. fold cache2 in Hcache2.
  eexists. eexists. split; [reflexivity|].
  split; [rewrite Hrgba1, Hrgba2, Hcalls1, Hcalls2; reflexivity|].
  destruct Hcache1 as [[H21 H1] | [H21 H1]], Hcache2 as [[H12 H2] | [H12 H2]];
    rewrite H12, H21, ?Hrgba1, ?Hrgba2, H1, H2; try reflexivity.
  apply insert_insert_ne. exact (not_eq_sym Hne).
Qed.

Lemma run_queries_commute_witness :
  ∃ a1 a2 : answer,
    run_queries ∅ [query_fill (Some scheme_red);
                   {| q_key := pressed_key "DELE"; q_scheme := None;
                      q_element := "fill" |}] = [a1; a2]
    ∧ run_queries ∅ [{| q_key := pressed_key "DELE"; q_scheme := None;
                        q_element := "fill" |};
                      query_fill (Some scheme_red)] = [a2; a1]
    ∧ run_cache ∅ [query_fill (Some scheme_red);
                   {| q_key := pressed_key "DELE"; q_scheme := None;
                      q_element := "fill" |}]
      = run_cache ∅ [{| q_key := pressed_key "DELE"; q_scheme := None;
                        q_element := "fill" |};
                      query_fill (Some scheme_red)].
Proof.
  apply (run_queries_commute ∅ (query_fill (Some scheme_red))
           {| q_key := pressed_key "DELE"; q_scheme := None; q_element := "fill" |}).
  discriminate.
Defined.
